(** * bun: SELECT / VALUES query construction and rendering

    A shallow embedding of [query_select.go] and of the two files that make
    up the bulk value encoder ([model_map_slice.go], [query_values.go]),
    together with the properties of the specification that concern them.

    Conventions of the embedding:
    - a Go [[]byte] buffer is a [string]; [append(b, s...)] is [b +:+ s];
    - a Go slice that the code tests against [nil] is an [option (list _)],
      [None] being [nil];
    - a Go [map[string]interface{}] is a [gmap string value];
    - a method that returns [([]byte, error)] returns a [result string];
    - a method that writes to its receiver returns the receiver's new state
      next to its result. *)

From Stdlib Require Import ZArith Ascii String.
From stdpp Require Import base option list sorting gmap strings pretty.

Local Open Scope string_scope.
Local Open Scope Z_scope.
Local Open Scope list_scope.
Local Set Warnings "-register-all".

(** ** Errors and results *)

(** The error values the three files create, and those handed up by
    collaborators outside them. *)
Inductive error : Type :=
| errNoJoins                                (* "bun: query has no joins" *)
| errNoRelation (table name : string)       (* "%s does not have relation=%q" *)
| errMapSliceEmpty                          (* "bun: map slice is empty" *)
| errModelNil                               (* errModelNil *)
| errValuesUnsupported (model : string)     (* "bun: Values does not support %T" *)
| errExternal (msg : string).               (* driver, schema, relation loader *)

Global Instance error_eq_dec : EqDecision error.
Proof. solve_decision. Defined.

(** What a call yields: a value, a returned error, or a run-time panic
    (an explicit [panic], or the dereference of a nil pointer). *)
Inductive result (A : Type) : Type :=
| Ok (a : A)
| Err (e : error)
| Panic (msg : string).
Global Arguments Ok {A} a.
Global Arguments Err {A} e.
Global Arguments Panic {A} msg.

Global Instance result_bind : MBind result := fun A B k r =>
  match r with
  | Ok a => k a
  | Err e => Err e
  | Panic msg => Panic msg
  end.

Global Instance result_ret : MRet result := @Ok.

Definition isOk {A} (r : result A) : bool :=
  match r with Ok _ => true | _ => false end.

(** [for i, x := range l { s, err = body(i, x, s); if err != nil { return nil, err } }] *)
Fixpoint forRange {A St} (body : nat -> A -> St -> result St)
    (i : nat) (l : list A) (s : St) : result St :=
  match l with
  | [] => Ok s
  | x :: l' => s' ← body i x s; forRange body (S i) l' s'
  end.

(** [if i > 0 { b = append(b, sep...) }] *)
Definition sepIf (i : nat) (sep b : string) : string :=
  match i with
  | O => b
  | S _ => b +:+ sep
  end.

(** ** The formatter bridge (package [sqlfmt]) *)

Module sqlfmt.

(** Argument values ([interface{}]). *)
Inductive value : Type :=
| VNull
| VInt (n : Z)
| VBool (b : bool)
| VStr (s : string).

Global Instance value_eq_dec : EqDecision value.
Proof. solve_decision. Defined.

(** Modelled from the spec: the formatter of package [sqlfmt], which is not
    part of the three files.  It has the two behaviours of section 4.2:
    the placeholder ("template", Nop) formatter and the literal formatter,
    which converts an argument to a dialect-quoted literal with the
    dialect's [quote]. *)
Inductive QueryFormatter : Type :=
| NopFormatter
| LiteralFormatter (quote : value -> string).

Definition IsNopFormatter (fmter : QueryFormatter) : bool :=
  match fmter with
  | NopFormatter => true
  | LiteralFormatter _ => false
  end.

(** Modelled from the spec: [sqlfmt.Append], the rendering of one argument:
    the generic token [?] in placeholder mode, the quoted literal
    otherwise. *)
Definition argText (fmter : QueryFormatter) (v : value) : string :=
  match fmter with
  | NopFormatter => "?"
  | LiteralFormatter quote => quote v
  end.

Definition Append (fmter : QueryFormatter) (b : string) (v : value) : string :=
  b +:+ argText fmter v.

(** Modelled from the spec: [sqlfmt.AppendIdent]; an identifier node is
    "rendered verbatim" and never passes through value escaping. *)
Definition AppendIdent (fmter : QueryFormatter) (b : string) (ident : string) : string :=
  b +:+ ident.

(** Modelled from the spec: [FormatQuery], the interpolation of a raw
    template.  The argument positions are the [?] of the template, paired
    in order with the positional arguments; a [?] left without an argument
    and the arguments left without a [?] are not argument positions.
    Named references ([?Columns] and the like) are expanded by the query
    that owns the formatter, see [ValuesQuery.AppendArg]; they are not
    interpreted here. *)
Fixpoint formatQuery (fmter : QueryFormatter) (query : string) (args : list value) : string :=
  match query with
  | EmptyString => EmptyString
  | String c rest =>
      if Ascii.eqb c "?"%char then
        match args with
        | a :: args' => argText fmter a +:+ formatQuery fmter rest args'
        | [] => String c (formatQuery fmter rest [])
        end
      else String c (formatQuery fmter rest args)
  end.

Definition FormatQuery (fmter : QueryFormatter) (b : string)
    (query : string) (args : list value) : string :=
  b +:+ formatQuery fmter query args.

(** [QueryWithArgs]: a safe node (template and arguments) or, with
    [Args == nil], an identifier node. *)
Record QueryWithArgs : Type := mkQueryWithArgs {
  Query : string;
  Args : option (list value)
}.

Global Instance QueryWithArgs_eq_dec : EqDecision QueryWithArgs.
Proof. solve_decision. Defined.

Definition SafeQuery (query : string) (args : list value) : QueryWithArgs :=
  {| Query := query; Args := Some args |}.

Definition UnsafeIdent (ident : string) : QueryWithArgs :=
  {| Query := ident; Args := None |}.

Definition zeroQuery : QueryWithArgs := {| Query := ""; Args := None |}.

Definition IsZero (q : QueryWithArgs) : bool :=
  bool_decide (Query q = "") && bool_decide (Args q = None).

(** Modelled from the spec: the single rendering operation of a node. *)
Definition nodeText (fmter : QueryFormatter) (q : QueryWithArgs) : string :=
  match Args q with
  | None => Query q
  | Some args => formatQuery fmter (Query q) args
  end.

Definition AppendQuery (fmter : QueryFormatter) (q : QueryWithArgs) (b : string)
    : result string :=
  match Args q with
  | None => Ok (AppendIdent fmter b (Query q))
  | Some args => Ok (FormatQuery fmter b (Query q) args)
  end.

(** [QueryWithSep]: a node and the separator used before it. *)
Record QueryWithSep : Type := mkQueryWithSep {
  QueryWithArgs_of :> QueryWithArgs;
  Sep : string
}.

Global Instance QueryWithSep_eq_dec : EqDecision QueryWithSep.
Proof. solve_decision. Defined.

Definition SafeQueryWithSep (query : string) (args : list value) (sep : string)
    : QueryWithSep :=
  {| QueryWithArgs_of := SafeQuery query args; Sep := sep |}.

(** Modelled from the spec: [sqlfmt.AppendString], a string as a quoted
    literal. *)
Definition AppendString (b : string) (s : string) : string :=
  b +:+ "'" +:+ s +:+ "'".

(** A dialect's literals, used by the examples: integers in decimal,
    strings between single quotes. *)
Definition sqlQuote (v : value) : string :=
  match v with
  | VNull => "NULL"
  | VInt n => pretty n
  | VBool true => "TRUE"
  | VBool false => "FALSE"
  | VStr s => "'" +:+ s +:+ "'"
  end.

End sqlfmt.
Import sqlfmt.

(** ** Buffers *)

(** The text of a loop that writes [sep] before every element but the
    first: [joined sep [x1; ...; xn] = x1 sep x2 sep ... xn]. *)
Fixpoint prefixed (sep : string) (l : list string) : string :=
  match l with
  | [] => ""
  | x :: l' => sep +:+ x +:+ prefixed sep l'
  end.

Definition joined (sep : string) (l : list string) : string :=
  match l with
  | [] => ""
  | x :: l' => x +:+ prefixed sep l'
  end.

(** ** Dynamic rows ([model_map_slice.go]) *)

(** The part of [*DB] that rendering reads: the dialect's feature set
    ([db.features.Has(feature.ValuesRow)]) and its formatter. *)
Record DB : Type := mkDB {
  hasValuesRow : bool;
  fmter : QueryFormatter
}.

Module MapSlice.

(** [slicePtr] points to the caller's slice; [slice] is what it points to
    when a method runs.  [keys] is [nil] until [initKeys] has run. *)
Record mapSliceModel : Type := mkMapSliceModel {
  db : DB;
  slice : list (gmap string value);
  keys : option (list string)
}.

Definition newMapSliceModel (db : DB) (ptr : list (gmap string value)) : mapSliceModel :=
  {| db := db; slice := ptr; keys := None |}.

Definition setKeys (ks : list string) (m : mapSliceModel) : mapSliceModel :=
  {| db := db m; slice := slice m; keys := Some ks |}.

(** [for k := range first { keys = append(keys, k) }].  Go visits the keys
    of a map in an unspecified order; [sortStrings_order] below shows that
    the order chosen here does not matter. *)
Definition rangeKeys (first : gmap string value) : list string :=
  (map_to_list first).*1.

(** [sort.Strings]: increasing byte-wise lexicographic order. *)
Definition sortStrings (l : list string) : list string :=
  merge_sort String.le l.

Definition initKeys (m : mapSliceModel) : option error * mapSliceModel :=
  match keys m with
  | Some _ => (None, m)
  | None =>
      match slice m with
      | [] => (Some errMapSliceEmpty, m)
      | first :: _ => (None, setKeys (sortStrings (rangeKeys first)) m)
      end
  end.

(** [range m.keys]: ranging over a nil slice visits nothing. *)
Definition keyList (m : mapSliceModel) : list string :=
  default [] (keys m).

(** [el[key]]: a missing key yields the nil interface value. *)
Definition index (el : gmap string value) (key : string) : value :=
  default VNull (el !! key).

Definition appendColumns (m : mapSliceModel) (fmter : QueryFormatter) (b : string)
    : result string * mapSliceModel :=
  match initKeys m with
  | (Some err, m) => (Err err, m)
  | (None, m) =>
      (forRange (fun i k b => Ok (AppendIdent fmter (sepIf i ", " b) k)) 0 (keyList m) b, m)
  end.

(** [if m.db.features.Has(feature.ValuesRow) { "ROW(" } else { '(' }] *)
Definition openRow (m : mapSliceModel) (b : string) : string :=
  if hasValuesRow (db m) then b +:+ "ROW(" else b +:+ "(".

Definition appendValues (m : mapSliceModel) (fmter : QueryFormatter) (b : string)
    : result string * mapSliceModel :=
  match initKeys m with
  | (Some err, m) => (Err err, m)
  | (None, m) =>
      let b := b +:+ "VALUES " in
      let b := openRow m b in
      if IsNopFormatter fmter then
        (forRange (fun i (_ : string) b => Ok (sepIf i ", " b +:+ "?")) 0 (keyList m) b, m)
      else
        (b ← forRange (fun i el b =>
                let b := match i with
                         | O => b
                         | S _ => openRow m (b +:+ "), ")
                         end in
                forRange (fun j key b => Ok (Append fmter (sepIf j ", " b) (index el key)))
                  0 (keyList m) b)
              0 (slice m) b;
         Ok (b +:+ ")"), m)
  end.

End MapSlice.

(** ** Schema metadata and query state *)

Module schema.

(** [schema.Field], as far as these files read it. *)
Record Field : Type := mkField {
  Name : string;
  SQLName : string;
  UserSQLType : string
}.

(** [schema.Table]; [TypeName] is what [%s] prints for it. *)
Record Table : Type := mkTable {
  TypeName : string;
  Alias : string;
  SQLNameForSelects : string;
  Fields : list Field;
  FieldMap : gmap string Field
}.

Inductive RelationType : Type :=
| HasOneRelation
| BelongsToRelation
| HasManyRelation
| ManyToManyRelation.

End schema.
Import schema.

(** A function value from queries to queries, as handed to [Apply] or
    [Relation].  A query cannot contain functions on queries, so the
    function is named by a token that [callFunc] and [applyQuery] below
    interpret. *)
Inductive applyFunc : Type := ApplyFunc (id : nat).

(** A relation join of a table model ([join.go]), as far as
    [query_select.go] reads it. *)
Inductive join : Type := mkJoin {
  Relation_Type : RelationType;               (* j.Relation.Type *)
  JoinModel_Table : Table;                    (* j.JoinModel.Table() *)
  JoinModel_GetJoins : list join;             (* j.JoinModel.GetJoins() *)
  join_columns : list QueryWithArgs;          (* j.columns *)
  join_alias : string;                        (* the relation alias *)
  ApplyQueryFunc : option applyFunc
}.

(** A row of a typed source: the values of a struct, by field name. *)
Definition strct : Type := gmap string value.

(** The table models that [ValuesQuery.appendQuery] tells apart. *)
Inductive tableModelData : Type :=
| structTableModel (s : strct)
| sliceTableModel (slice : list (gmap string value))
| otherTableModel (typeName : string).

Record tableModel : Type := mkTableModel {
  tm_data : tableModelData;
  GetJoins : list join
}.

(** [baseQuery.model]: a table model, a map-slice model, or another model.
    [setTableModel] stores a table model in [q.model] and in [q.tableModel]
    alike, so [tableModel] below reads it from [model]. *)
Inductive model : Type :=
| TableModel (tm : tableModel)
| MapSliceModel (m : MapSlice.mapSliceModel)
| OtherModel (typeName : string).

Inductive Flag : Type := wherePKFlag | deletedFlag | allWithDeletedFlag.
Global Instance Flag_eq_dec : EqDecision Flag.
Proof. solve_decision. Defined.

(** An entry of [baseQuery.with]: a name and a [sqlfmt.QueryAppender],
    given by the text its [AppendQuery] appends. *)
Record withQuery : Type := mkWithQuery {
  with_name : string;
  with_query : QueryFormatter -> result string
}.

(** [DBI], the executor a query runs on, named by a token. *)
Inductive DBI : Type := mkDBI (id : nat).

Record baseQuery : Type := mkBaseQuery {
  db : DB;
  dbi : DBI;
  err : option error;
  model_ : option model;
  table : option Table;
  with_ : list withQuery;
  modelTable : QueryWithArgs;
  tables : list QueryWithArgs;
  columns : list QueryWithArgs;
  flags : list Flag
}.

Definition tableModel_ (q : baseQuery) : option tableModel :=
  match model_ q with
  | Some (TableModel tm) => Some tm
  | _ => None
  end.

Record whereBaseQuery : Type := mkWhereBaseQuery {
  baseQuery_of :> baseQuery;
  where_ : list QueryWithSep
}.

Record joinQuery : Type := mkJoinQuery {
  join_ : QueryWithArgs;
  on : list QueryWithSep
}.

(** [SelectQuery].  A union member is a pointer to a query; [union_] holds the
    query it points to, as it stands when the owner is rendered.  (A query
    that is its own union member would make the Go code recurse without
    end and has no counterpart here.) *)
Inductive SelectQuery : Type := mkSelectQuery {
  whereBaseQuery_of :> whereBaseQuery;
  distinctOn : option (list QueryWithArgs);
  joins : list joinQuery;
  group : list QueryWithArgs;
  having : list QueryWithArgs;
  order : list QueryWithArgs;
  limit : Z;
  offset : Z;
  selFor : QueryWithArgs;
  union_ : list (string * SelectQuery)
}.

(** [int32(n)]: conversion of an [int] to 32 bits wraps around. *)
Definition int32 (n : Z) : Z := (n + 2 ^ 31) mod 2 ^ 32 - 2 ^ 31.

(** *** Field updates *)

Definition updBase (f : baseQuery -> baseQuery) (q : SelectQuery) : SelectQuery :=
  {| whereBaseQuery_of :=
       {| baseQuery_of := f (baseQuery_of (whereBaseQuery_of q));
          where_ := where_ (whereBaseQuery_of q) |};
     distinctOn := distinctOn q; joins := joins q; group := group q;
     having := having q; order := order q; limit := limit q; offset := offset q;
     selFor := selFor q; union_ := union_ q |}.

Definition updWhere (f : list QueryWithSep -> list QueryWithSep) (q : SelectQuery)
    : SelectQuery :=
  {| whereBaseQuery_of :=
       {| baseQuery_of := baseQuery_of (whereBaseQuery_of q);
          where_ := f (where_ (whereBaseQuery_of q)) |};
     distinctOn := distinctOn q; joins := joins q; group := group q;
     having := having q; order := order q; limit := limit q; offset := offset q;
     selFor := selFor q; union_ := union_ q |}.

Definition set_dbi (x : DBI) (q : baseQuery) : baseQuery :=
  {| db := db q; dbi := x; err := err q; model_ := model_ q; table := table q;
     with_ := with_ q; modelTable := modelTable q; tables := tables q;
     columns := columns q; flags := flags q |}.

Definition set_err (x : option error) (q : baseQuery) : baseQuery :=
  {| db := db q; dbi := dbi q; err := x; model_ := model_ q; table := table q;
     with_ := with_ q; modelTable := modelTable q; tables := tables q;
     columns := columns q; flags := flags q |}.

Definition set_model (x : option model) (q : baseQuery) : baseQuery :=
  {| db := db q; dbi := dbi q; err := err q; model_ := x; table := table q;
     with_ := with_ q; modelTable := modelTable q; tables := tables q;
     columns := columns q; flags := flags q |}.

Definition set_modelTable (x : QueryWithArgs) (q : baseQuery) : baseQuery :=
  {| db := db q; dbi := dbi q; err := err q; model_ := model_ q; table := table q;
     with_ := with_ q; modelTable := x; tables := tables q;
     columns := columns q; flags := flags q |}.

Definition set_tables (x : list QueryWithArgs) (q : baseQuery) : baseQuery :=
  {| db := db q; dbi := dbi q; err := err q; model_ := model_ q; table := table q;
     with_ := with_ q; modelTable := modelTable q; tables := x;
     columns := columns q; flags := flags q |}.

Definition set_columns (x : list QueryWithArgs) (q : baseQuery) : baseQuery :=
  {| db := db q; dbi := dbi q; err := err q; model_ := model_ q; table := table q;
     with_ := with_ q; modelTable := modelTable q; tables := tables q;
     columns := x; flags := flags q |}.

Definition set_flags (x : list Flag) (q : baseQuery) : baseQuery :=
  {| db := db q; dbi := dbi q; err := err q; model_ := model_ q; table := table q;
     with_ := with_ q; modelTable := modelTable q; tables := tables q;
     columns := columns q; flags := x |}.

Definition set_distinctOn (x : option (list QueryWithArgs)) (q : SelectQuery) : SelectQuery :=
  {| whereBaseQuery_of := whereBaseQuery_of q;
     distinctOn := x; joins := joins q; group := group q;
     having := having q; order := order q; limit := limit q; offset := offset q;
     selFor := selFor q; union_ := union_ q |}.

Definition set_joins (x : list joinQuery) (q : SelectQuery) : SelectQuery :=
  {| whereBaseQuery_of := whereBaseQuery_of q;
     distinctOn := distinctOn q; joins := x; group := group q;
     having := having q; order := order q; limit := limit q; offset := offset q;
     selFor := selFor q; union_ := union_ q |}.

Definition set_group (x : list QueryWithArgs) (q : SelectQuery) : SelectQuery :=
  {| whereBaseQuery_of := whereBaseQuery_of q;
     distinctOn := distinctOn q; joins := joins q; group := x;
     having := having q; order := order q; limit := limit q; offset := offset q;
     selFor := selFor q; union_ := union_ q |}.

Definition set_having (x : list QueryWithArgs) (q : SelectQuery) : SelectQuery :=
  {| whereBaseQuery_of := whereBaseQuery_of q;
     distinctOn := distinctOn q; joins := joins q; group := group q;
     having := x; order := order q; limit := limit q; offset := offset q;
     selFor := selFor q; union_ := union_ q |}.

Definition set_order (x : list QueryWithArgs) (q : SelectQuery) : SelectQuery :=
  {| whereBaseQuery_of := whereBaseQuery_of q;
     distinctOn := distinctOn q; joins := joins q; group := group q;
     having := having q; order := x; limit := limit q; offset := offset q;
     selFor := selFor q; union_ := union_ q |}.

Definition set_limit (x : Z) (q : SelectQuery) : SelectQuery :=
  {| whereBaseQuery_of := whereBaseQuery_of q;
     distinctOn := distinctOn q; joins := joins q; group := group q;
     having := having q; order := order q; limit := x; offset := offset q;
     selFor := selFor q; union_ := union_ q |}.

Definition set_offset (x : Z) (q : SelectQuery) : SelectQuery :=
  {| whereBaseQuery_of := whereBaseQuery_of q;
     distinctOn := distinctOn q; joins := joins q; group := group q;
     having := having q; order := order q; limit := limit q; offset := x;
     selFor := selFor q; union_ := union_ q |}.

Definition set_selFor (x : QueryWithArgs) (q : SelectQuery) : SelectQuery :=
  {| whereBaseQuery_of := whereBaseQuery_of q;
     distinctOn := distinctOn q; joins := joins q; group := group q;
     having := having q; order := order q; limit := limit q; offset := offset q;
     selFor := x; union_ := union_ q |}.

Definition set_union (x : list (string * SelectQuery)) (q : SelectQuery) : SelectQuery :=
  {| whereBaseQuery_of := whereBaseQuery_of q;
     distinctOn := distinctOn q; joins := joins q; group := group q;
     having := having q; order := order q; limit := limit q; offset := offset q;
     selFor := selFor q; union_ := x |}.

(** ** Collaborators *)

(** What a builder method hands back: its receiver ([return q]) or some
    other query. *)
Inductive returned : Type :=
| this
| other (q : SelectQuery).

(** The functions of the repository that the three files call and that live
    outside them, on whose behaviour the specification is silent.  An
    [append...] function of the source is given by the text it appends to
    the buffer it receives. *)
Class Collaborators : Type := {
  (* a caller's function value, run on a query: what it returns and the
     query's state afterwards *)
  callFunc : applyFunc -> SelectQuery -> result (returned * SelectQuery);
  (* model_table_*.go: [tableModel.Join(name, fn)] *)
  tableModel_Join : tableModel -> string -> option applyFunc -> option join * tableModel;
  (* query_base.go *)
  appendWith : QueryFormatter -> baseQuery -> result string;
  appendWhere : QueryFormatter -> whereBaseQuery -> result string;
  hasTables : baseQuery -> bool;
  modelHasTableName : baseQuery -> bool;
  appendFieldColumns : string -> list Field -> string;
  getFields : baseQuery -> result (list Field);
  (* join.go: [j.applyQuery(q)] runs the function scoped to the relation; it
     gives the column subset of the join and the state of the query after
     the call *)
  applyQuery : join -> SelectQuery -> list QueryWithArgs * SelectQuery;
  appendHasOneJoin : QueryFormatter -> join -> SelectQuery -> result string
}.

(** ** Building a SELECT ([query_select.go]) *)

Module Select.
Section Builder.
Context `{Collaborators}.

Definition NewSelectQuery (db : DB) (dbDB : DBI) : SelectQuery :=
  {| whereBaseQuery_of :=
       {| baseQuery_of :=
            {| db := db; dbi := dbDB; err := None; model_ := None; table := None;
               with_ := []; modelTable := zeroQuery; tables := []; columns := [];
               flags := [] |};
          where_ := [] |};
     distinctOn := None; joins := []; group := []; having := []; order := [];
     limit := 0; offset := 0; selFor := zeroQuery; union_ := [] |}.

(** Modelled from the spec: [addTable], [addColumn] and [addWhere] of
    [query_base.go]; "each fluent method appends a node to the relevant
    clause list". *)
Definition addTable (table : QueryWithArgs) (q : SelectQuery) : SelectQuery :=
  updBase (fun b => set_tables (tables b ++ [table]) b) q.

Definition addColumn (column : QueryWithArgs) (q : SelectQuery) : SelectQuery :=
  updBase (fun b => set_columns (columns b ++ [column]) b) q.

Definition addWhere (cond : QueryWithSep) (q : SelectQuery) : SelectQuery :=
  updWhere (fun w => w ++ [cond]) q.

Definition Tx (db : DBI) (q : SelectQuery) : SelectQuery :=
  updBase (set_dbi db) q.

Definition Apply (fn : applyFunc) (q : SelectQuery) : result (returned * SelectQuery) :=
  callFunc fn q.

Definition Distinct (q : SelectQuery) : SelectQuery :=
  set_distinctOn (Some []) q.

Definition DistinctOn (query : string) (args : list value) (q : SelectQuery) : SelectQuery :=
  set_distinctOn (Some (default [] (distinctOn q) ++ [SafeQuery query args])) q.

Definition Table (tables : list string) (q : SelectQuery) : SelectQuery :=
  foldl (fun q table => addTable (UnsafeIdent table) q) q tables.

Definition TableExpr (query : string) (args : list value) (q : SelectQuery) : SelectQuery :=
  addTable (SafeQuery query args) q.

Definition ModelTableExpr (query : string) (args : list value) (q : SelectQuery)
    : SelectQuery :=
  updBase (set_modelTable (SafeQuery query args)) q.

Definition Column (columns : list string) (q : SelectQuery) : SelectQuery :=
  foldl (fun q column => addColumn (UnsafeIdent column) q) q columns.

Definition ColumnExpr (query : string) (args : list value) (q : SelectQuery) : SelectQuery :=
  addColumn (SafeQuery query args) q.

Definition Where (query : string) (args : list value) (q : SelectQuery) : SelectQuery :=
  addWhere (SafeQueryWithSep query args " AND ") q.

Definition WhereOr (query : string) (args : list value) (q : SelectQuery) : SelectQuery :=
  addWhere (SafeQueryWithSep query args " OR ") q.

(** [q.flags = q.flags.Set(wherePKFlag)] *)
Definition WherePK (q : SelectQuery) : SelectQuery :=
  updBase (fun b => set_flags (wherePKFlag :: flags b) b) q.

Definition Group (columns : list string) (q : SelectQuery) : SelectQuery :=
  foldl (fun q column => set_group (group q ++ [UnsafeIdent column]) q) q columns.

Definition GroupExpr (group_ : string) (args : list value) (q : SelectQuery) : SelectQuery :=
  set_group (group q ++ [SafeQuery group_ args]) q.

Definition Having (having_ : string) (args : list value) (q : SelectQuery) : SelectQuery :=
  set_having (having q ++ [SafeQuery having_ args]) q.

Definition Order (columns : list string) (q : SelectQuery) : SelectQuery :=
  foldl (fun q column => set_order (order q ++ [UnsafeIdent column]) q) q columns.

Definition OrderExpr (query : string) (args : list value) (q : SelectQuery) : SelectQuery :=
  set_order (order q ++ [SafeQuery query args]) q.

Definition Limit (n : Z) (q : SelectQuery) : SelectQuery :=
  set_limit (int32 n) q.

Definition Offset (n : Z) (q : SelectQuery) : SelectQuery :=
  set_offset (int32 n) q.

Definition For (s : string) (args : list value) (q : SelectQuery) : SelectQuery :=
  set_selFor (SafeQuery s args) q.

Definition addUnion (expr : string) (other : SelectQuery) (q : SelectQuery) : SelectQuery :=
  set_union (union_ q ++ [(expr, other)]) q.

Definition Union (other : SelectQuery) := addUnion " UNION " other.
Definition UnionAll (other : SelectQuery) := addUnion " UNION ALL " other.
Definition Intersect (other : SelectQuery) := addUnion " INTERSECT " other.
Definition IntersectAll (other : SelectQuery) := addUnion " INTERSECT ALL " other.
Definition Except (other : SelectQuery) := addUnion " EXCEPT " other.
Definition ExceptAll (other : SelectQuery) := addUnion " EXCEPT ALL " other.

Definition Join (join : string) (args : list value) (q : SelectQuery) : SelectQuery :=
  set_joins (joins q ++ [{| join_ := SafeQuery join args; on := [] |}]) q.

Definition joinOn (cond : string) (args : list value) (sep : string) (q : SelectQuery)
    : SelectQuery :=
  match joins q with
  | [] => updBase (set_err (Some errNoJoins)) q
  | _ :: _ =>
      set_joins
        (alter (fun j => {| join_ := join_ j;
                            on := on j ++ [SafeQueryWithSep cond args sep] |})
               (length (joins q) - 1)%nat (joins q))
        q
  end.

Definition JoinOn (cond : string) (args : list value) := joinOn cond args " AND ".
Definition JoinOnOr (cond : string) (args : list value) := joinOn cond args " OR ".

(** [%s] of [q.table]. *)
Definition tableString (q : baseQuery) : string :=
  match table q with
  | Some t => TypeName t
  | None => "<nil>"
  end.

Definition Relation (name : string) (apply : list applyFunc) (q : SelectQuery)
    : result SelectQuery :=
  match apply with
  | _ :: _ :: _ => Panic "only one apply function is supported"
  | _ =>
      let fn := head apply in
      match tableModel_ q with
      | None => Panic "invalid memory address or nil pointer dereference"
      | Some tm =>
          let '(join, tm) := tableModel_Join tm name fn in
          let q := updBase (set_model (Some (TableModel tm))) q in
          match join with
          | None => Ok (updBase (set_err (Some (errNoRelation (tableString q) name))) q)
          | Some _ => Ok q
          end
      end
  end.

(** The builder methods of the file, as calls.  [Model], [With],
    [ExcludeColumn], [WhereGroup], [WhereDeleted] and [WhereAllWithDeleted]
    only forward to [query_base.go] and are not among them. *)
Inductive call : Type :=
| callTx (db : DBI)
| callApply (fn : applyFunc)
| callDistinct
| callDistinctOn (query : string) (args : list value)
| callTable (tables : list string)
| callTableExpr (query : string) (args : list value)
| callModelTableExpr (query : string) (args : list value)
| callColumn (columns : list string)
| callColumnExpr (query : string) (args : list value)
| callWhere (query : string) (args : list value)
| callWhereOr (query : string) (args : list value)
| callWherePK
| callGroup (columns : list string)
| callGroupExpr (group : string) (args : list value)
| callHaving (having : string) (args : list value)
| callOrder (columns : list string)
| callOrderExpr (query : string) (args : list value)
| callLimit (n : Z)
| callOffset (n : Z)
| callFor (s : string) (args : list value)
| callUnion (other : SelectQuery)
| callUnionAll (other : SelectQuery)
| callIntersect (other : SelectQuery)
| callIntersectAll (other : SelectQuery)
| callExcept (other : SelectQuery)
| callExceptAll (other : SelectQuery)
| callJoin (join : string) (args : list value)
| callJoinOn (cond : string) (args : list value)
| callJoinOnOr (cond : string) (args : list value)
| callRelation (name : string) (apply : list applyFunc).

Definition returns (q : SelectQuery) : result (returned * SelectQuery) := Ok (this, q).

(** [run c q]: the method call [q.c(...)] on a receiver in state [q]. *)
Definition run (c : call) (q : SelectQuery) : result (returned * SelectQuery) :=
  match c with
  | callTx db => returns (Tx db q)
  | callApply fn => Apply fn q
  | callDistinct => returns (Distinct q)
  | callDistinctOn query args => returns (DistinctOn query args q)
  | callTable tables => returns (Table tables q)
  | callTableExpr query args => returns (TableExpr query args q)
  | callModelTableExpr query args => returns (ModelTableExpr query args q)
  | callColumn columns => returns (Column columns q)
  | callColumnExpr query args => returns (ColumnExpr query args q)
  | callWhere query args => returns (Where query args q)
  | callWhereOr query args => returns (WhereOr query args q)
  | callWherePK => returns (WherePK q)
  | callGroup columns => returns (Group columns q)
  | callGroupExpr group args => returns (GroupExpr group args q)
  | callHaving having args => returns (Having having args q)
  | callOrder columns => returns (Order columns q)
  | callOrderExpr query args => returns (OrderExpr query args q)
  | callLimit n => returns (Limit n q)
  | callOffset n => returns (Offset n q)
  | callFor s args => returns (For s args q)
  | callUnion o => returns (Union o q)
  | callUnionAll o => returns (UnionAll o q)
  | callIntersect o => returns (Intersect o q)
  | callIntersectAll o => returns (IntersectAll o q)
  | callExcept o => returns (Except o q)
  | callExceptAll o => returns (ExceptAll o q)
  | callJoin join args => returns (Join join args q)
  | callJoinOn cond args => returns (JoinOn cond args q)
  | callJoinOnOr cond args => returns (JoinOnOr cond args q)
  | callRelation name apply => q ← Relation name apply q; returns q
  end.

End Builder.

(** ** Rendering a SELECT ([query_select.go]) *)

Section Render.
Context `{Collaborators}.

(** Modelled from the spec: [formatterWithModel] binds the formatter to the
    query that expands its named references; the formatter keeps its mode.
    Named references are not interpreted by [formatQuery], so the formatter
    is returned as it is. *)
Definition formatterWithModel {Q : Type} (fmter : QueryFormatter) (q : Q) : QueryFormatter :=
  fmter.

(** Modelled from the spec: [join.appendAlias] and [join.appendAliasColumn]
    of [join.go]; a column of a relation is aliased as
    [<relation-alias>__<field>]. *)
Definition appendAlias (j : join) (fmter : QueryFormatter) (b : string) : string :=
  b +:+ join_alias j.

Definition appendAliasColumn (j : join) (fmter : QueryFormatter) (b : string)
    (column : string) : string :=
  b +:+ join_alias j +:+ "__" +:+ column.

Definition set_join_columns (cols : list QueryWithArgs) (j : join) : join :=
  {| Relation_Type := Relation_Type j; JoinModel_Table := JoinModel_Table j;
     JoinModel_GetJoins := JoinModel_GetJoins j; join_columns := cols;
     join_alias := join_alias j; ApplyQueryFunc := ApplyQueryFunc j |}.

Definition set_join_joins (js : list join) (j : join) : join :=
  {| Relation_Type := Relation_Type j; JoinModel_Table := JoinModel_Table j;
     JoinModel_GetJoins := js; join_columns := join_columns j;
     join_alias := join_alias j; ApplyQueryFunc := ApplyQueryFunc j |}.

Definition isHasOne (j : join) : bool :=
  match Relation_Type j with
  | HasOneRelation | BelongsToRelation => true
  | _ => false
  end.

(** One turn of the loop of [_forEachHasOneJoin], on the join [j].  The
    callback [fn] works on the variables it captured, of state [St]; it may
    write to the join it is given, of which this model follows the column
    subset: [fn j s] gives the join's columns and the outcome of the call.
    The result is the join after the visit and the outcome. *)
Fixpoint visitHasOneJoin {St : Type} (fn : join -> St -> list QueryWithArgs * result St)
    (j : join) (s : St) {struct j} : join * result St :=
  if isHasOne j then
    let '(cols, r) := fn j s in
    let '(subs, r) :=
      match r with
      | Ok s =>
          (fix each (joins : list join) (s : St) {struct joins} : list join * result St :=
             match joins with
             | [] => ([], Ok s)
             | j' :: joins' =>
                 let '(j', r) := visitHasOneJoin fn j' s in
                 match r with
                 | Ok s => let '(joins', r) := each joins' s in (j' :: joins', r)
                 | _ => (j' :: joins', r)
                 end
             end) (JoinModel_GetJoins j) s
      | _ => (JoinModel_GetJoins j, r)
      end in
    (set_join_joins subs (set_join_columns cols j), r)
  else (j, Ok s).

Fixpoint _forEachHasOneJoin {St : Type} (fn : join -> St -> list QueryWithArgs * result St)
    (joins : list join) (s : St) : list join * result St :=
  match joins with
  | [] => ([], Ok s)
  | j :: joins' =>
      let '(j, r) := visitHasOneJoin fn j s in
      match r with
      | Ok s => let '(joins', r) := _forEachHasOneJoin fn joins' s in (j :: joins', r)
      | _ => (j :: joins', r)
      end
  end.

(** The joins of the query's table model, and their update in place. *)
Definition set_GetJoins (js : list join) (q : SelectQuery) : SelectQuery :=
  match tableModel_ q with
  | Some tm =>
      updBase (set_model (Some (TableModel {| tm_data := tm_data tm; GetJoins := js |}))) q
  | None => q
  end.

Definition forEachHasOneJoin {St : Type} (fn : join -> St -> list QueryWithArgs * result St)
    (q : SelectQuery) (s : St) : result St * SelectQuery :=
  match tableModel_ q with
  | None => (Ok s, q)
  | Some tm =>
      let '(js, r) := _forEachHasOneJoin fn (GetJoins tm) s in
      (r, set_GetJoins js q)
  end.

(** [appendHasOneColumns]: the columns of the join and the state of the
    query after [join.applyQuery(q)], and the buffer. *)
Definition appendHasOneColumns (fmter : QueryFormatter) (b : string) (j : join)
    (q : SelectQuery) : list QueryWithArgs * SelectQuery * result string :=
  let '(cols, q) := applyQuery j q in
  let j := set_join_columns cols j in
  match join_columns j with
  | _ :: _ =>
      (cols, q,
       forRange (fun i col b => AppendQuery fmter col (sepIf i ", " b)) 0 (join_columns j) b)
  | [] =>
      (cols, q,
       forRange (fun i f b =>
           let b := sepIf i ", " b in
           let b := appendAlias j fmter b in
           let b := b +:+ "." in
           let b := b +:+ SQLName f in
           let b := b +:+ " AS " in
           Ok (appendAliasColumn j fmter b (Name f)))
         0 (Fields (JoinModel_Table j)) b)
  end.

(** [bytes.TrimSuffix] *)
Definition TrimSuffix (b suffix : string) : string :=
  let n := String.length b in
  let k := String.length suffix in
  if (k <=? n)%nat && String.eqb (substring (n - k) k b) suffix
  then substring 0 (n - k) b
  else b.

(** [SelectQuery.appendColumns].  The receiver is passed by value: the
    callback works on a copy [qc] of the query, which is dropped at the
    end, while the joins it visits belong to the table model that the copy
    and the query share.  The result is the buffer and the query. *)
Definition appendColumns (fmter : QueryFormatter) (q : SelectQuery) (b : string)
    : result string * SelectQuery :=
  let start := String.length b in
  let r :=
    match columns q with
    | _ :: _ =>
        forRange (fun i col b =>
            let b := sepIf i ", " b in
            match Args col with
            | None =>
                match table q with
                | None => Panic "invalid memory address or nil pointer dereference"
                | Some t =>
                    match FieldMap t !! Query col with
                    | Some field => Ok (b +:+ Alias t +:+ "." +:+ SQLName field)
                    | None => AppendQuery fmter col b
                    end
                end
            | Some _ => AppendQuery fmter col b
            end)
          0 (columns q) b
    | [] =>
        match table q with
        | Some t =>
            if (10 <? length (Fields t))%nat && IsNopFormatter fmter then
              Ok (AppendString (b +:+ Alias t +:+ ".")
                    (pretty (length (Fields t)) +:+ " columns"))
            else Ok (b +:+ appendFieldColumns (Alias t) (Fields t))
        | None => Ok (b +:+ "*")
        end
    end in
  match r with
  | Ok b =>
      let '(r, q') :=
        forEachHasOneJoin (fun j '(b, start, qc) =>
            let '(b, start) :=
              if bool_decide (String.length b ≠ start)
              then (b +:+ ", ", String.length (b +:+ ", "))
              else (b, start) in
            let '(cols, qc, r) := appendHasOneColumns fmter b j qc in
            (cols, b ← r; Ok (b, start, qc)))
          q (b, start, q) in
      (s ← r; Ok (TrimSuffix s.1.1 ", "), q')
  | _ => (r, q)
  end.

End Render.

Section RenderQuery.
Context `{Collaborators}.

(** [a nil pointer is dereferenced] *)
Definition nilDeref {A : Type} : result A :=
  Panic "invalid memory address or nil pointer dereference".

Definition appendTables (fmter : QueryFormatter) (q : SelectQuery) (b : string)
    : result string :=
  let b := b +:+ " FROM " in
  let startLen := String.length b in
  b ← (if modelHasTableName q then
         if negb (IsZero (modelTable q)) then AppendQuery fmter (modelTable q) b
         else
           match table q with
           | None => nilDeref
           | Some t =>
               let b := FormatQuery fmter b (SQLNameForSelects t) [] in
               if bool_decide (Alias t ≠ SQLNameForSelects t)
               then Ok (b +:+ " AS " +:+ Alias t)
               else Ok b
           end
       else Ok b);
  forRange (fun _ table b =>
      let b := if (startLen <? String.length b)%nat then b +:+ ", " else b in
      AppendQuery fmter table b)
    0 (tables q) b.

Definition appendOrder (fmter : QueryFormatter) (q : SelectQuery) (b : string)
    : result string :=
  match order q with
  | _ :: _ =>
      let b := b +:+ " ORDER BY " in
      forRange (fun i f b => AppendQuery fmter f (sepIf i ", " b)) 0 (order q) b
  | [] => Ok b
  end.

(** [joinQuery.AppendQuery] *)
Definition joinQuery_AppendQuery (fmter : QueryFormatter) (j : joinQuery) (b : string)
    : result string :=
  let b := b +:+ " " in
  b ← AppendQuery fmter (join_ j) b;
  match on j with
  | _ :: _ =>
      let b := b +:+ " ON " in
      forRange (fun i on b =>
          let b := sepIf i (Sep on) b in
          let b := b +:+ "(" in
          b ← AppendQuery fmter on b;
          Ok (b +:+ ")"))
        0 (on j) b
  | [] => Ok b
  end.

(** [cteCount := count && (len(q.group) > 0 || q.distinctOn != nil)] *)
Definition cteCount (q : SelectQuery) (count : bool) : bool :=
  count && ((0 <? length (group q))%nat || bool_decide (distinctOn q ≠ None)).

(** [appendQuery], from its first line to [SELECT] and the DISTINCT
    clause. *)
Definition appendSelect (fmter : QueryFormatter) (q : SelectQuery) (b : string)
    (count : bool) : result string :=
  let b := if cteCount q count then b +:+ "WITH _count_wrapper AS (" else b in
  let b := if (0 <? length (union_ q))%nat then b +:+ "(" else b in
  t ← appendWith fmter q;
  let b := b +:+ t in
  let b := b +:+ "SELECT " in
  match distinctOn q with
  | Some ((_ :: _) as distinctOn) =>
      let b := b +:+ "DISTINCT ON (" in
      b ← forRange (fun i app b => AppendQuery fmter app (sepIf i ", " b)) 0 distinctOn b;
      Ok (b +:+ ") ")
  | Some [] => Ok (b +:+ "DISTINCT ")
  | None => Ok b
  end.

(** [appendQuery], from the FROM clause to the HAVING clause. *)
Definition appendFromToHaving (fmter : QueryFormatter) (q : SelectQuery) (b : string)
    : result string :=
  b ← (if hasTables q then appendTables fmter q b else Ok b);
  b ← (forEachHasOneJoin (fun j b =>
          (join_columns j,
           let b := b +:+ " " in
           t ← appendHasOneJoin fmter j q; Ok (b +:+ t)))
        q b).1;
  b ← forRange (fun _ j b => joinQuery_AppendQuery fmter j b) 0 (joins q) b;
  t ← appendWhere fmter q;
  let b := b +:+ t in
  b ← match group q with
      | _ :: _ =>
          let b := b +:+ " GROUP BY " in
          forRange (fun i f b => AppendQuery fmter f (sepIf i ", " b)) 0 (group q) b
      | [] => Ok b
      end;
  match having q with
  | _ :: _ =>
      let b := b +:+ " HAVING " in
      forRange (fun i f b =>
          let b := sepIf i " AND " b in
          let b := b +:+ "(" in
          b ← AppendQuery fmter f b;
          Ok (b +:+ ")"))
        0 (having q) b
  | [] => Ok b
  end.

(** [strconv.AppendInt(b, n, 10)] *)
Definition AppendInt (b : string) (n : Z) : string := b +:+ pretty n.

(** [appendQuery], the clauses under [if !count]. *)
Definition appendOrderToFor (fmter : QueryFormatter) (q : SelectQuery) (b : string)
    : result string :=
  b ← appendOrder fmter q b;
  let b := if bool_decide (limit q ≠ 0) then AppendInt (b +:+ " LIMIT ") (limit q) else b in
  let b := if bool_decide (offset q ≠ 0) then AppendInt (b +:+ " OFFSET ") (offset q) else b in
  if negb (IsZero (selFor q)) then
    let b := b +:+ " FOR " in
    AppendQuery fmter (selFor q) b
  else Ok b.

(** [") SELECT count(*) FROM _count_wrapper"], under [if cteCount] *)
Definition closeCount (q : SelectQuery) (count : bool) (b : string) : string :=
  if cteCount q count then b +:+ ") SELECT count(*) FROM _count_wrapper" else b.

(** The loop [for _, u := range q.union] of [appendQuery]; [render] is
    [u.query.AppendQuery].  The result is the buffer and the union members
    as their rendering leaves them. *)
Definition appendUnions (render : SelectQuery -> string -> result string * SelectQuery)
    : list (string * SelectQuery) -> string -> result string * list (string * SelectQuery) :=
  fix each (us : list (string * SelectQuery)) (b : string) {struct us} :=
    match us with
    | [] => (Ok b, [])
    | (expr, query) :: us' =>
        let b := b +:+ expr in
        let b := b +:+ "(" in
        let '(r, query) := render query b in
        match r with
        | Ok b =>
            let b := b +:+ ")" in
            let '(r, us') := each us' b in
            (r, (expr, query) :: us')
        | _ => (r, (expr, query) :: us')
        end
    end.

(** [appendQuery], from the column list to the clauses under [if !count]. *)
Definition appendColumnsToFor (fmter : QueryFormatter) (q : SelectQuery) (b : string)
    (count : bool) : result string * SelectQuery :=
  let '(r, q1) :=
    if count && negb (cteCount q count) then (Ok (b +:+ "count(*)"), q)
    else appendColumns fmter q b in
  (b ← r;
   b ← appendFromToHaving fmter q1 b;
   if negb count then appendOrderToFor fmter q1 b else Ok b,
   q1).

(** [appendQuery].  The result is the buffer and the query as rendering
    leaves it: the joins of its table model, and those of its union
    members, after the visits of [appendColumns]. *)
Fixpoint appendQuery (fmter : QueryFormatter) (q : SelectQuery) (b : string)
    (count : bool) {struct q} : result string * SelectQuery :=
  match err q with
  | Some e => (Err e, q)
  | None =>
      match appendSelect fmter q b count with
      | Ok b =>
          let '(r, q1) := appendColumnsToFor fmter q b count in
          match r with
          | Ok b =>
              match union_ q with
              | _ :: _ =>
                  let b := b +:+ ")" in
                  let '(r, us) :=
                    appendUnions
                      (fun query b =>
                         appendQuery (formatterWithModel fmter query) query b false)
                      (union_ q) b in
                  (b ← r; Ok (closeCount q count b), set_union us q1)
              | [] => (Ok (closeCount q count b), q1)
              end
          | Err e => (Err e, q1)
          | Panic msg => (Panic msg, q1)
          end
      | Err e => (Err e, q)
      | Panic msg => (Panic msg, q)
      end
  end.

Definition AppendQuery (fmter : QueryFormatter) (q : SelectQuery) (b : string)
    : result string * SelectQuery :=
  appendQuery (formatterWithModel fmter q) q b false.

End RenderQuery.
End Select.

(** ** A reference set of collaborators

    One implementation of the collaborators, used to run the model on
    concrete queries.  It follows the specification where the specification
    speaks (the flat WHERE list with its separators and parentheses, the
    [JOIN <related-table> AS <alias>] fragment of a flattened relation) and
    is the plainest choice elsewhere: caller functions and relation
    functions that change nothing, a table model that knows the relations
    it already holds. *)

Definition refAppendWhere (fmter : QueryFormatter) (q : whereBaseQuery) : result string :=
  match where_ q with
  | [] => Ok ""
  | _ :: _ =>
      forRange (fun i (w : QueryWithSep) b =>
          b ← sqlfmt.AppendQuery fmter w (sepIf i (Sep w) b +:+ "(");
          Ok (b +:+ ")"))
        0 (where_ q) " WHERE "
  end.

Definition refAppendWith (fmter : QueryFormatter) (q : baseQuery) : result string :=
  match with_ q with
  | [] => Ok ""
  | _ :: _ =>
      b ← forRange (fun i w b =>
              t ← with_query w fmter;
              Ok (sepIf i ", " b +:+ with_name w +:+ " AS (" +:+ t +:+ ")"))
            0 (with_ q) "WITH ";
      Ok (b +:+ " ")
  end.

Definition refModelHasTableName (q : baseQuery) : bool :=
  negb (IsZero (modelTable q)) || bool_decide (table q ≠ None).

Definition refAppendFieldColumns (alias : string) (fields : list Field) : string :=
  joined ", " ((fun f => (if bool_decide (alias = "") then "" else alias +:+ ".")
                         +:+ SQLName f) <$> fields).

Global Instance refCollaborators : Collaborators := {|
  callFunc := fun _ q => Ok (this, q);
  tableModel_Join := fun tm name _ =>
    (List.find (fun j => String.eqb (join_alias j) name) (GetJoins tm), tm);
  appendWith := refAppendWith;
  appendWhere := refAppendWhere;
  hasTables := fun q => refModelHasTableName q || bool_decide (tables q ≠ []);
  modelHasTableName := refModelHasTableName;
  appendFieldColumns := refAppendFieldColumns;
  getFields := fun q =>
    match table q with
    | Some t => Ok (Fields t)
    | None => Err (errExternal "bun: model does not have a table")
    end;
  applyQuery := fun j q => (join_columns j, q);
  appendHasOneJoin := fun fmter j q =>
    Ok ("LEFT JOIN " +:+ SQLNameForSelects (JoinModel_Table j) +:+ " AS " +:+ join_alias j)
|}.

Definition pgDB : DB := {| hasValuesRow := false; fmter := LiteralFormatter sqlQuote |}.

(** The two dynamic rows of the specification's example. *)
Definition twoRows : list (gmap string value) :=
  [ {[ "a" := VInt 1; "b" := VInt 2 ]}; {[ "b" := VInt 4; "a" := VInt 3 ]} ].

Definition newSelect : SelectQuery := Select.NewSelectQuery pgDB (mkDBI 0).

(** The query of [testQueryHook] and its two expected texts. *)
Definition hookQuery : SelectQuery :=
  Select.Where "? = ?" [VStr "foo"; VStr "bar"] (Select.ColumnExpr "1" [] newSelect).

(** The example of the specification: a select on an entity with a
    condition and a limit. *)
Definition entityT : Table :=
  {| TypeName := "T"; Alias := "t"; SQLNameForSelects := "t";
     Fields := [ {| Name := "ID"; SQLName := "id"; UserSQLType := "" |};
                 {| Name := "Name"; SQLName := "name"; UserSQLType := "" |} ];
     FieldMap := {[ "id" := {| Name := "ID"; SQLName := "id"; UserSQLType := "" |};
                    "name" := {| Name := "Name"; SQLName := "name"; UserSQLType := "" |} ]} |}.

Definition withTable (t : Table) (joins : list join) (q : SelectQuery) : SelectQuery :=
  updBase (fun b =>
    {| db := db b; dbi := dbi b; err := err b;
       model_ := Some (TableModel {| tm_data := structTableModel ∅; GetJoins := joins |});
       table := Some t; with_ := with_ b; modelTable := modelTable b;
       tables := tables b; columns := columns b; flags := flags b |}) q.

Definition selectT : SelectQuery :=
  Select.Limit 10 (Select.Where "id = ?" [VInt 5] (withTable entityT [] newSelect)).

(** ** The bulk value encoder ([query_values.go]) *)

Module Values.

Record ValuesQuery : Type := mkValuesQuery {
  baseQuery_of :> baseQuery;
  modelValues : gmap string QueryWithArgs;      (* customValueQuery *)
  withOrder : bool
}.

Definition updBase (f : baseQuery -> baseQuery) (q : ValuesQuery) : ValuesQuery :=
  {| baseQuery_of := f (baseQuery_of q); modelValues := modelValues q;
     withOrder := withOrder q |}.

Section Values.
Context `{Collaborators}.

(** Modelled from the spec: [baseQuery.setErr] of [query_base.go]; an error
    is "stored on first occurrence". *)
Definition setErr (e : error) (q : baseQuery) : baseQuery :=
  match err q with
  | Some _ => q
  | None => set_err (Some e) q
  end.

(** [NewValuesQuery]; [setTableModel] has resolved the model to [model]
    and, for a table model, its table to [table]. *)
Definition NewValuesQuery (db : DB) (dbDB : DBI) (model : option model)
    (table : option Table) : ValuesQuery :=
  {| baseQuery_of :=
       {| db := db; dbi := dbDB; err := None; model_ := model; table := table;
          with_ := []; modelTable := zeroQuery; tables := []; columns := [];
          flags := [] |};
     modelValues := ∅; withOrder := false |}.

Definition DB (db : DBI) (q : ValuesQuery) : ValuesQuery := updBase (set_dbi db) q.

Definition WithOrder (q : ValuesQuery) : ValuesQuery :=
  {| baseQuery_of := baseQuery_of q; modelValues := modelValues q; withOrder := true |}.

(** [%T] of the model. *)
Definition modelType (m : model) : string :=
  match m with
  | TableModel tm =>
      match tm_data tm with
      | structTableModel _ => "*bun.structTableModel"
      | sliceTableModel _ => "*bun.sliceTableModel"
      | otherTableModel name => name
      end
  | MapSliceModel _ => "*bun.mapSliceModel"
  | OtherModel name => name
  end.

(** [AppendColumns]; a map-slice model keeps the keys that [initKeys]
    fixes. *)
Definition AppendColumns (fmter : QueryFormatter) (q : ValuesQuery) (b : string)
    : result string * ValuesQuery :=
  match err q with
  | Some e => (Err e, q)
  | None =>
      match model_ q with
      | None => (Err errModelNil, q)
      | Some (TableModel _) =>
          (fields ← getFields q;
           let b := b +:+ appendFieldColumns "" fields in
           Ok (if withOrder q then b +:+ ", _order" else b),
           q)
      | Some (MapSliceModel m) =>
          let '(r, m) := MapSlice.appendColumns m fmter b in
          (r, updBase (set_model (Some (MapSliceModel m))) q)
      | Some (OtherModel name) => (Err (errValuesUnsupported name), q)
      end
  end.

(** [AppendArg]: the expansion of the named reference [name]. *)
Definition AppendArg (fmter : QueryFormatter) (q : ValuesQuery) (b : string)
    (name : string) : result (string * bool) * ValuesQuery :=
  if String.eqb name "Columns" then
    let '(r, q) := AppendColumns fmter q b in
    match r with
    | Ok bb => (Ok (bb, true), q)
    | Err e => (Ok (b, true), updBase (setErr e) q)
    | Panic msg => (Panic msg, q)
    end
  else (Ok (b, false), q).

(** Modelled from the spec: [Field.AppendValue] with [indirect(strct)], the
    field's value accessor and its rendering by the formatter. *)
Definition AppendValue (f : Field) (fmter : QueryFormatter) (b : string) (s : strct)
    : string :=
  Append fmter b (MapSlice.index s (Name f)).

Definition appendValues (fmter : QueryFormatter) (q : ValuesQuery) (b : string)
    (fields : list Field) (s : strct) : result string :=
  let isTemplate := IsNopFormatter fmter in
  forRange (fun i f b =>
      let b := sepIf i ", " b in
      match modelValues q !! Name f with
      | Some app => sqlfmt.AppendQuery fmter app b
      | None =>
          let b := if isTemplate then b +:+ "?" else AppendValue f fmter b s in
          let b := b +:+ "::" in
          Ok (b +:+ UserSQLType f)
      end)
    0 fields b.

Definition appendQuery (fmter : QueryFormatter) (q : ValuesQuery) (b : string)
    (fields : list Field) : result string :=
  let b := b +:+ "VALUES " in
  let b := if hasValuesRow (db q) then b +:+ "ROW(" else b +:+ "(" in
  b ← match tableModel_ q with
      | Some {| tm_data := structTableModel s |} =>
          b ← appendValues fmter q b fields s;
          Ok (if withOrder q then Select.AppendInt (b +:+ ", ") 0 else b)
      | Some {| tm_data := sliceTableModel slice |} =>
          forRange (fun i el b =>
              let b := sepIf i "), (" b in
              b ← appendValues fmter q b fields el;
              Ok (if withOrder q then Select.AppendInt (b +:+ ", ") (Z.of_nat i) else b))
            0 slice b
      | _ => Err (errValuesUnsupported (from_option modelType "<nil>" (model_ q)))
      end;
  Ok (b +:+ ")").

Definition AppendQuery (fmter : QueryFormatter) (q : ValuesQuery) (b : string)
    : result string * ValuesQuery :=
  match err q with
  | Some e => (Err e, q)
  | None =>
      match model_ q with
      | None => (Err errModelNil, q)
      | Some m =>
          let fmter := Select.formatterWithModel fmter q in
          match m with
          | TableModel _ =>
              (fields ← getFields q; appendQuery fmter q b fields, q)
          | MapSliceModel m =>
              let '(r, m) := MapSlice.appendValues m fmter b in
              (r, updBase (set_model (Some (MapSliceModel m))) q)
          | OtherModel name => (Err (errValuesUnsupported name), q)
          end
      end
  end.

End Values.
End Values.

Definition entityRow : strct := {[ "ID" := VInt 42; "Name" := VStr "hello" ]}.

Definition entityTyped : Table :=
  {| TypeName := "T"; Alias := "t"; SQLNameForSelects := "t";
     Fields := [ {| Name := "ID"; SQLName := "id"; UserSQLType := "BIGINT" |};
                 {| Name := "Name"; SQLName := "name"; UserSQLType := "VARCHAR" |} ];
     FieldMap := ∅ |}.

Definition valuesOf (t : Table) (rows : list strct) : Values.ValuesQuery :=
  Values.NewValuesQuery pgDB (mkDBI 0)
    (Some (TableModel {| tm_data := sliceTableModel rows; GetJoins := [] |})) (Some t).

(** ** The execution facade ([query_select.go]) *)

Module Exec.

(** The driver, the relation loader and the model's lifecycle callback,
    each given by the outcome of its call. *)
Record Driver : Type := mkDriver {
  scan : string -> result nat;          (* q.scan(ctx, q, query, dest): res.n *)
  QueryRowContext : string -> result Z; (* q.db.QueryRowContext(ctx, query).Scan(&num) *)
  join_Select : join -> option error;   (* j.Select(ctx, q.db.NewSelect()) *)
  AfterSelect : option error            (* q.tableModel.AfterSelect(ctx) *)
}.

Section Facade.
Context `{Collaborators}.
Variable driver : Driver.

Fixpoint selectJoin (j : join) {struct j} : option error :=
  match Relation_Type j with
  | HasOneRelation | BelongsToRelation =>
      (fix each (joins : list join) : option error :=
         match joins with
         | [] => None
         | j' :: joins' =>
             match selectJoin j' with
             | Some e => Some e
             | None => each joins'
             end
         end) (JoinModel_GetJoins j)
  | _ => join_Select driver j
  end.

Fixpoint selectJoins (joins : list join) : option error :=
  match joins with
  | [] => None
  | j :: joins' =>
      match selectJoin j with
      | Some e => Some e
      | None => selectJoins joins'
      end
  end.

(** an [error] that is nil or not, as a [result] *)
Definition errorOf (e : option error) : result unit :=
  match e with
  | Some e => Err e
  | None => Ok tt
  end.

Definition Scan (q : SelectQuery) : result unit * SelectQuery :=
  let '(r, q) := Select.AppendQuery (fmter (db q)) q "" in
  (query ← r;
   n ← scan driver query;
   _ ← (match tableModel_ q with
        | Some tm => if (0 <? n)%nat then errorOf (selectJoins (GetJoins tm)) else Ok tt
        | None => Ok tt
        end);
   match tableModel_ q with
   | Some _ => errorOf (AfterSelect driver)
   | None => Ok tt
   end,
   q).

Definition Count (q : SelectQuery) : result Z * SelectQuery :=
  let '(r, q) := Select.appendQuery (fmter (db q)) q "" true in
  (query ← r; QueryRowContext driver query, q).

(** *** [ScanAndCount] as a machine

    The caller and the two goroutines are three threads over shared
    variables; a schedule says which thread takes the next step.  A
    goroutine first runs its operation, then, if it failed, takes the
    mutex, records the error if none is recorded, releases the mutex, and
    at last signals the wait group. *)

Inductive tid : Type := Main | ScanThread | CountThread.

Inductive pc : Type :=
| Run                    (* about to call Scan / Count *)
| WantLock (e : error)   (* at mu.Lock() *)
| Critical (e : error)   (* holding the mutex *)
| Done.                  (* wg.Done() has run *)

Inductive mainpc : Type :=
| Start                              (* at [if q.limit >= 0] *)
| Spawning                           (* before the second [wg.Add(1); go] *)
| Waiting                            (* at wg.Wait() *)
| Returned (count : Z) (e : option error).

Record state : Type := mkState {
  query : SelectQuery;
  main : mainpc;
  scanT : option pc;       (* None: the goroutine was not started *)
  countT : option pc;
  wg : nat;
  mu : bool;               (* the mutex is held *)
  firstErr : option error;
  count : Z;
  crashed : option string; (* a goroutine panicked *)
  (* history, for the statements only *)
  scanned : option (result unit);   (* what Scan returned, once it has run *)
  counted : option (result Z);      (* what Count returned, once it has run *)
  recorded : list error             (* the errors brought to the mutex, in order *)
}.

Definition init (q : SelectQuery) : state :=
  {| query := q; main := Start; scanT := None; countT := None; wg := 0; mu := false;
     firstErr := None; count := 0; crashed := None;
     scanned := None; counted := None; recorded := [] |}.

Definition stepMain (s : state) : option state :=
  match main s with
  | Start =>
      if bool_decide (0 <= limit (query s)) then
        Some {| query := query s; main := Spawning; scanT := Some Run; countT := countT s;
                wg := S (wg s); mu := mu s; firstErr := firstErr s; count := count s;
                crashed := crashed s; scanned := scanned s; counted := counted s;
                recorded := recorded s |}
      else
        Some {| query := query s; main := Spawning; scanT := scanT s; countT := countT s;
                wg := wg s; mu := mu s; firstErr := firstErr s; count := count s;
                crashed := crashed s; scanned := scanned s; counted := counted s;
                recorded := recorded s |}
  | Spawning =>
      Some {| query := query s; main := Waiting; scanT := scanT s; countT := Some Run;
              wg := S (wg s); mu := mu s; firstErr := firstErr s; count := count s;
              crashed := crashed s; scanned := scanned s; counted := counted s;
              recorded := recorded s |}
  | Waiting =>
      match wg s with
      | O =>
          Some {| query := query s; main := Returned (count s) (firstErr s);
                  scanT := scanT s; countT := countT s;
                  wg := wg s; mu := mu s; firstErr := firstErr s; count := count s;
                  crashed := crashed s; scanned := scanned s; counted := counted s;
                  recorded := recorded s |}
      | S _ => None
      end
  | Returned _ _ => None
  end.

(** [if firstErr == nil { firstErr = err }] *)
Definition record (e : error) (firstErr : option error) : option error :=
  match firstErr with
  | None => Some e
  | Some _ => firstErr
  end.

Definition stepScan (s : state) : option state :=
  match scanT s with
  | Some Run =>
      let '(r, q) := Scan (query s) in
      Some {| query := q; main := main s;
              scanT := Some (match r with Err e => WantLock e | _ => Done end);
              countT := countT s;
              wg := match r with Err _ => wg s | _ => pred (wg s) end;
              mu := mu s; firstErr := firstErr s; count := count s;
              crashed := match r with Panic msg => Some msg | _ => crashed s end;
              scanned := Some r; counted := counted s; recorded := recorded s |}
  | Some (WantLock e) =>
      if mu s then None
      else
        Some {| query := query s; main := main s; scanT := Some (Critical e);
                countT := countT s; wg := wg s; mu := true; firstErr := firstErr s;
                count := count s; crashed := crashed s; scanned := scanned s;
                counted := counted s; recorded := recorded s |}
  | Some (Critical e) =>
      Some {| query := query s; main := main s; scanT := Some Done; countT := countT s;
              wg := pred (wg s); mu := false; firstErr := record e (firstErr s);
              count := count s; crashed := crashed s; scanned := scanned s;
              counted := counted s; recorded := recorded s ++ [e] |}
  | _ => None
  end.

Definition stepCount (s : state) : option state :=
  match countT s with
  | Some Run =>
      let '(r, q) := Count (query s) in
      Some {| query := q; main := main s; scanT := scanT s;
              countT := Some (match r with Err e => WantLock e | _ => Done end);
              wg := match r with Err _ => wg s | _ => pred (wg s) end;
              mu := mu s; firstErr := firstErr s;
              count := match r with Ok num => num | _ => 0 end;
              crashed := match r with Panic msg => Some msg | _ => crashed s end;
              scanned := scanned s; counted := Some r; recorded := recorded s |}
  | Some (WantLock e) =>
      if mu s then None
      else
        Some {| query := query s; main := main s; scanT := scanT s;
                countT := Some (Critical e); wg := wg s; mu := true;
                firstErr := firstErr s; count := count s; crashed := crashed s;
                scanned := scanned s; counted := counted s; recorded := recorded s |}
  | Some (Critical e) =>
      Some {| query := query s; main := main s; scanT := scanT s; countT := Some Done;
              wg := pred (wg s); mu := false; firstErr := record e (firstErr s);
              count := count s; crashed := crashed s; scanned := scanned s;
              counted := counted s; recorded := recorded s ++ [e] |}
  | _ => None
  end.

(** One step of thread [t]; [None] when [t] cannot move (it is blocked or
    has finished, or the program has crashed). *)
Definition step (t : tid) (s : state) : option state :=
  match crashed s with
  | Some _ => None
  | None =>
      match t with
      | Main => stepMain s
      | ScanThread => stepScan s
      | CountThread => stepCount s
      end
  end.

(** A schedule is followed as far as it can be: a thread that cannot move
    when its turn comes leaves the state as it is. *)
Fixpoint run (sched : list tid) (s : state) : state :=
  match sched with
  | [] => s
  | t :: sched' => run sched' (default s (step t s))
  end.

(** [ScanAndCount] under a schedule: what it returns, if it has returned
    by the end of the schedule. *)
Definition ScanAndCount (q : SelectQuery) (sched : list tid) : option (Z * option error) :=
  match main (run sched (init q)) with
  | Returned count e => Some (count, e)
  | _ => None
  end.

End Facade.
End Exec.


(** ** The specification's wording, for comparison

    Definitions that follow the sentences of the specification where the
    code turns out to differ from them. *)

(** "the first non-empty row" of a dynamic-row source *)
Definition firstNonEmptyRow (rows : list (gmap string value)) : option (gmap string value) :=
  List.find (fun r => negb (bool_decide (r = ∅))) rows.

(** "column order = the lexicographically sorted key set of the first
    non-empty row" *)
Definition columnsOfFirstNonEmptyRow (m : MapSlice.mapSliceModel)
    (fmter : QueryFormatter) (b : string) : Prop :=
  forall r, firstNonEmptyRow (MapSlice.slice m) = Some r ->
    (MapSlice.appendColumns m fmter b).1
    = Ok (b +:+ joined ", " (MapSlice.sortStrings (MapSlice.rangeKeys r))).

(** The invariant of a map-slice model: its key list, once fixed, is the
    sorted key set of the first row. *)
Definition keysFixed (m : MapSlice.mapSliceModel) : Prop :=
  match MapSlice.keys m with
  | None => True
  | Some ks =>
      exists first rest,
        MapSlice.slice m = first :: rest
        /\ ks = MapSlice.sortStrings (MapSlice.rangeKeys first)
  end.

(** The text of one row of a dynamic-row source: its values, looked up by
    key in the order [ks]. *)
Definition rowText (quote : value -> string) (ks : list string)
    (row : gmap string value) : string :=
  joined ", " ((fun k => quote (MapSlice.index row k)) <$> ks).

(** [ROW(] or [(] *)
Definition rowOpen (db : DB) : string :=
  if hasValuesRow db then "ROW(" else "(".

(** "a type cast suffix is appended per value when the entity declares
    one": the suffix of a field, in the specification's words. *)
Definition declaredCast (f : Field) : string :=
  if bool_decide (UserSQLType f = "") then "" else "::" +:+ UserSQLType f.

(** The rendered value of a field: the caller's expression for it, if
    there is one, else the field's value in the row. *)
Definition valueText (fmter : QueryFormatter) (q : Values.ValuesQuery) (s : strct)
    (f : Field) : string :=
  match Values.modelValues q !! Name f with
  | Some app => nodeText fmter app
  | None => argText fmter (MapSlice.index s (Name f))
  end.

Definition castWhenDeclared (fmter : QueryFormatter)
    (q : Values.ValuesQuery) (b : string) (fields : list Field) (s : strct) : Prop :=
  Values.appendValues fmter q b fields s
  = Ok (b +:+ joined ", " ((fun f => valueText fmter q s f +:+ declaredCast f) <$> fields)).

(** What the code appends for a field. *)
Definition elementText (fmter : QueryFormatter) (q : Values.ValuesQuery) (s : strct)
    (f : Field) : string :=
  match Values.modelValues q !! Name f with
  | Some app => nodeText fmter app
  | None => argText fmter (MapSlice.index s (Name f)) +:+ "::" +:+ UserSQLType f
  end.

(** "all further builder calls are no-ops once [an error is] set" *)
Definition noOpOnceFailed `{Collaborators} (c : Select.call) (q : SelectQuery) : Prop :=
  err q <> None -> Select.run c q = Ok (this, q).

(** A query on which [JoinOn] was called before any [Join]. *)
Definition failedQuery : SelectQuery := Select.JoinOn "a = b" [] newSelect.

(** The query with its error field cleared: all of its state but the
    stored error. *)
Definition clearErr (q : SelectQuery) : SelectQuery := updBase (set_err None) q.

Definition isApply (c : Select.call) : bool :=
  match c with Select.callApply _ => true | _ => false end.

Definition isRelation (c : Select.call) : bool :=
  match c with Select.callRelation _ _ => true | _ => false end.

(** ** Reading the history of a run of [ScanAndCount] *)

Module Run.
Import Exec.

(** the error of an operation that has run and failed *)
Definition failure {A} (r : option (result A)) : list error :=
  match r with
  | Some (Err e) => [e]
  | _ => []
  end.

(** the error a goroutine is about to bring to the mutex *)
Definition pending (p : option pc) : list error :=
  match p with
  | Some (WantLock e) | Some (Critical e) => [e]
  | _ => []
  end.

(** the goroutine has been started and has not signalled the wait group *)
Definition active (p : option pc) : nat :=
  match p with
  | None | Some Done => 0
  | Some _ => 1
  end.

Definition holds (p : option pc) : bool :=
  match p with
  | Some (Critical _) => true
  | _ => false
  end.

(** a goroutine's place in its code agrees with what its operation has
    returned so far *)
Definition agrees {A} (p : option pc) (r : option (result A)) : Prop :=
  match p with
  | None | Some Run => r = None
  | Some (WantLock e) | Some (Critical e) => r = Some (Err e)
  | Some Done => is_Some r
  end.

Definition finished (p : option pc) : Prop := p = None \/ p = Some Done.

Section Invariant.
Context `{Collaborators}.
Variable driver : Driver.
Variable q0 : SelectQuery.

(** The invariant of the machine started on [q0]. *)
Record Inv (s : state) : Prop := mkInv {
  inv_wg : wg s = (active (scanT s) + active (countT s))%nat;
  inv_mu : mu s = holds (scanT s) || holds (countT s);
  inv_excl : holds (scanT s) && holds (countT s) = false;
  inv_first : firstErr s = head (recorded s);
  inv_errors :
    failure (scanned s) ++ failure (counted s)
    ≡ₚ recorded s ++ pending (scanT s) ++ pending (countT s);
  inv_scan : agrees (scanT s) (scanned s);
  inv_count : agrees (countT s) (counted s);
  inv_var : count s = match counted s with Some (Ok num) => num | _ => 0 end;
  inv_start : main s = Start -> scanT s = None /\ countT s = None;
  inv_spawned : main s <> Start -> (scanT s = None <-> ~ 0 <= limit q0);
  inv_spawning : main s = Spawning -> countT s = None;
  inv_waiting : main s <> Start -> main s <> Spawning -> countT s <> None;
  inv_returned : forall c e, main s = Returned c e ->
    finished (scanT s) /\ countT s = Some Done /\ c = count s /\ e = firstErr s;
  inv_scan_panic : forall msg, scanned s = Some (Panic msg) -> crashed s <> None;
  inv_count_panic : forall msg, counted s = Some (Panic msg) -> crashed s <> None;
  inv_crashed : crashed s <> None -> forall c e, main s <> Returned c e;
  inv_noscan : scanT s = None -> scanned s = None
    /\ (counted s = None -> query s = q0)
    /\ (forall r, counted s = Some r -> r = (Count driver q0).1)
}.

End Invariant.

(** A schedule that lets every thread finish, from wherever the machine
    is. *)
Definition finish : list tid :=
  [Main; Main; ScanThread; ScanThread; ScanThread; CountThread; CountThread; CountThread;
   ScanThread; ScanThread; ScanThread; Main].

End Run.

Module Progress.
Import Exec.

(** The steps a goroutine has left. *)
Definition threadSteps (p : option pc) : nat :=
  match p with
  | Some Run => 3
  | Some (WantLock _) => 2
  | Some (Critical _) => 1
  | Some Done | None => 0
  end.

(** The steps the whole machine has left, at most: those of the caller,
    those of the goroutines it has started, and three for each goroutine it
    may still start. *)
Definition stepsLeft (s : state) : nat :=
  match main s with
  | Start => 9
  | Spawning => 5 + threadSteps (scanT s)
  | Waiting => 1 + threadSteps (scanT s) + threadSteps (countT s)
  | Returned _ _ => 0
  end.

(** The machine has come to rest: the caller has its results, or a
    goroutine has panicked. *)
Definition stopped (s : state) : Prop :=
  (exists c e, main s = Returned c e) \/ crashed s <> None.

End Progress.

(** A driver whose calls all succeed, with a fixed number of rows and a
    fixed count, and one whose row query fails. *)
Definition okDriver : Exec.Driver :=
  {| Exec.scan := fun _ => Ok 2%nat;
     Exec.QueryRowContext := fun _ => Ok 7;
     Exec.join_Select := fun _ => None;
     Exec.AfterSelect := None |}.

Definition scanFailsDriver : Exec.Driver :=
  {| Exec.scan := fun _ => Err (errExternal "connection reset");
     Exec.QueryRowContext := fun _ => Ok 7;
     Exec.join_Select := fun _ => None;
     Exec.AfterSelect := None |}.

(** ** The relation joins that are flattened *)

(** The has-one and belongs-to joins below and including [j], in the order
    of a depth-first walk that does not enter a join of another kind. *)
Fixpoint hasOneJoinsOf (j : join) {struct j} : list join :=
  if Select.isHasOne j then
    j :: (fix each (joins : list join) : list join :=
            match joins with
            | [] => []
            | j' :: joins' => hasOneJoinsOf j' ++ each joins'
            end) (JoinModel_GetJoins j)
  else [].

Definition hasOneJoins (joins : list join) : list join :=
  flat_map hasOneJoinsOf joins.

(** A callback with early exit, run over a list. *)
Definition forEach {A St : Type} (f : A -> St -> result St) (l : list A) (s : St)
    : result St :=
  forRange (fun _ x s => f x s) 0 l s.

(** Induction on a join, with the property at hand for the joins below
    it. *)
Definition join_rect' (P : join -> Prop)
    (step : forall j, Forall P (JoinModel_GetJoins j) -> P j) : forall j, P j :=
  fix F (j : join) : P j :=
    match j as j0 return P j0 with
    | mkJoin ty tb subs cols al ap =>
        step (mkJoin ty tb subs cols al ap)
          ((fix G (l : list join) : Forall P l :=
              match l with
              | [] => Forall_nil_2 P
              | x :: l' => Forall_cons_2 P x l' (F x) (G l')
              end) subs)
    end.

(** The joins that [selectJoins] hands to the relation loader: those of
    another kind than has-one and belongs-to, found at the top or below
    has-one and belongs-to joins, in the order of the walk. *)
Fixpoint loadedJoinsOf (j : join) {struct j} : list join :=
  if Select.isHasOne j then
    (fix each (joins : list join) : list join :=
       match joins with
       | [] => []
       | j' :: joins' => loadedJoinsOf j' ++ each joins'
       end) (JoinModel_GetJoins j)
  else [j].

Definition loadedJoins (joins : list join) : list join :=
  flat_map loadedJoinsOf joins.

(** The first error of a list of outcomes. *)
Fixpoint firstError (l : list (option error)) : option error :=
  match l with
  | [] => None
  | Some e :: _ => Some e
  | None :: l' => firstError l'
  end.


(** ** The text of the clauses

    What each clause renderer of [query_select.go] appends, as a function
    of the query alone. *)

(** The text of a loop that appends [g i x] for the element [x] at index
    [i]. *)
Fixpoint textOf {A : Type} (g : nat -> A -> string) (i : nat) (l : list A) : string :=
  match l with
  | [] => ""
  | x :: l' => g i x +:+ textOf g (S i) l'
  end.

(** [n1, n2, ...]: the nodes of a clause list, separated by [sep]. *)
Definition nodesText (fmter : QueryFormatter) (sep : string) (l : list QueryWithArgs)
    : string :=
  joined sep (nodeText fmter <$> l).

(** The ON conditions of a join: each in parentheses, each but the first
    preceded by its own separator. *)
Definition onText (fmter : QueryFormatter) (l : list QueryWithSep) : string :=
  textOf (fun i (c : QueryWithSep) =>
            (match i with O => "" | S _ => Sep c end) +:+ "(" +:+ nodeText fmter c +:+ ")")
         0 l.

Definition joinQueryText (fmter : QueryFormatter) (j : joinQuery) : string :=
  " " +:+ nodeText fmter (join_ j)
  +:+ match on j with
      | [] => ""
      | _ :: _ => " ON " +:+ onText fmter (on j)
      end.

Definition groupText (fmter : QueryFormatter) (q : SelectQuery) : string :=
  match group q with
  | [] => ""
  | _ :: _ => " GROUP BY " +:+ nodesText fmter ", " (group q)
  end.

Definition havingText (fmter : QueryFormatter) (q : SelectQuery) : string :=
  match having q with
  | [] => ""
  | _ :: _ =>
      " HAVING " +:+ joined " AND " ((fun f => "(" +:+ nodeText fmter f +:+ ")") <$> having q)
  end.

Definition orderText (fmter : QueryFormatter) (q : SelectQuery) : string :=
  match order q with
  | [] => ""
  | _ :: _ => " ORDER BY " +:+ nodesText fmter ", " (order q)
  end.

(** ORDER BY, LIMIT, OFFSET and FOR: the clauses under [if !count]. *)
Definition orderToForText (fmter : QueryFormatter) (q : SelectQuery) : string :=
  orderText fmter q
  +:+ (if bool_decide (limit q ≠ 0) then " LIMIT " +:+ pretty (limit q) else "")
  +:+ (if bool_decide (offset q ≠ 0) then " OFFSET " +:+ pretty (offset q) else "")
  +:+ (if negb (IsZero (selFor q)) then " FOR " +:+ nodeText fmter (selFor q) else "").

(** The DISTINCT clause. *)
Definition distinctText (fmter : QueryFormatter) (q : SelectQuery) : string :=
  match distinctOn q with
  | Some ((_ :: _) as l) => "DISTINCT ON (" +:+ nodesText fmter ", " l +:+ ") "
  | Some [] => "DISTINCT "
  | None => ""
  end.

(** The list after FROM: a comma goes before a table when something has
    been written after FROM already. *)
Definition commaFold (fmter : QueryFormatter) (acc : string) (l : list QueryWithArgs)
    : string :=
  foldl (fun acc table =>
           (if bool_decide (acc = "") then acc else acc +:+ ", ") +:+ nodeText fmter table)
        acc l.

Section ClauseText.
Context `{Collaborators}.

(** WITH, SELECT and DISTINCT, with the opening of the count wrapper and of
    a union. *)
Definition selectText (fmter : QueryFormatter) (q : SelectQuery) (count : bool)
    : result string :=
  t ← appendWith fmter q;
  Ok ((if Select.cteCount q count then "WITH _count_wrapper AS (" else "")
      +:+ (if (0 <? length (union_ q))%nat then "(" else "")
      +:+ t +:+ "SELECT " +:+ distinctText fmter q).

(** The model's table after FROM. *)
Definition modelTableText (fmter : QueryFormatter) (q : SelectQuery) : result string :=
  if modelHasTableName q then
    if negb (IsZero (modelTable q)) then Ok (nodeText fmter (modelTable q))
    else
      match table q with
      | None => Select.nilDeref
      | Some t =>
          Ok (SQLNameForSelects t
              +:+ (if bool_decide (Alias t ≠ SQLNameForSelects t)
                   then " AS " +:+ Alias t else ""))
      end
  else Ok "".

Definition tablesText (fmter : QueryFormatter) (q : SelectQuery) : result string :=
  m ← modelTableText fmter q;
  Ok (" FROM " +:+ commaFold fmter m (tables q)).

(** The joins of the flattened relations, a space before each. *)
Definition hasOneJoinsText (fmter : QueryFormatter) (q : SelectQuery) : result string :=
  match tableModel_ q with
  | None => Ok ""
  | Some tm =>
      forEach (fun j t => x ← appendHasOneJoin fmter j q; Ok (t +:+ " " +:+ x))
        (hasOneJoins (GetJoins tm)) ""
  end.

(** FROM, the joins, WHERE, GROUP BY and HAVING. *)
Definition fromToHavingText (fmter : QueryFormatter) (q : SelectQuery) : result string :=
  t1 ← (if hasTables q then tablesText fmter q else Ok "");
  t2 ← hasOneJoinsText fmter q;
  t3 ← appendWhere fmter q;
  Ok (t1 +:+ t2 +:+ textOf (fun _ j => joinQueryText fmter j) 0 (joins q)
      +:+ t3 +:+ groupText fmter q +:+ havingText fmter q).

End ClauseText.

(** The columns of a flattened relation: the caller's column subset if
    there is one, else every field of the related table under its alias. *)
Definition hasOneColumnsText (fmter : QueryFormatter) (j : join) : string :=
  match join_columns j with
  | _ :: _ => nodesText fmter ", " (join_columns j)
  | [] =>
      joined ", "
        ((fun f => join_alias j +:+ "." +:+ SQLName f +:+ " AS "
                   +:+ join_alias j +:+ "__" +:+ Name f)
           <$> Fields (JoinModel_Table j))
  end.

(** A column of the query's own list, on a query with the table [t]: an
    identifier that names a field of the table is qualified by the table's
    alias, anything else is rendered as it is. *)
Definition columnText (fmter : QueryFormatter) (t : Table) (col : QueryWithArgs) : string :=
  match Args col with
  | None =>
      match FieldMap t !! Query col with
      | Some field => Alias t +:+ "." +:+ SQLName field
      | None => nodeText fmter col
      end
  | Some _ => nodeText fmter col
  end.

Definition isExpr (col : QueryWithArgs) : bool :=
  match Args col with Some _ => true | None => false end.

(** The relation joins whose columns and JOIN clauses are flattened into
    the query. *)
Definition relationJoins (q : SelectQuery) : list join :=
  match tableModel_ q with
  | Some tm => hasOneJoins (GetJoins tm)
  | None => []
  end.

(** The loop of [appendColumns] over the relations, on the text [t]
    written so far, [m] being the length at which the last comma was
    written. *)
Fixpoint columnsFold (texts : list string) (t : string) (m : nat) : string :=
  match texts with
  | [] => t
  | x :: texts' =>
      if bool_decide (String.length t ≠ m)
      then columnsFold texts' (t +:+ ", " +:+ x) (String.length t + 2)
      else columnsFold texts' (t +:+ x) m
  end.

Section ColumnsText.
Context `{Collaborators}.

(** The query's own columns. *)
Definition baseColumnsText (fmter : QueryFormatter) (q : SelectQuery) : result string :=
  match columns q with
  | _ :: _ =>
      match table q with
      | Some t => Ok (joined ", " (columnText fmter t <$> columns q))
      | None =>
          if forallb isExpr (columns q) then Ok (nodesText fmter ", " (columns q))
          else Select.nilDeref
      end
  | [] =>
      match table q with
      | Some t =>
          if (10 <? length (Fields t))%nat && IsNopFormatter fmter
          then Ok (Alias t +:+ "." +:+ "'" +:+ pretty (length (Fields t))
                   +:+ " columns" +:+ "'")
          else Ok (appendFieldColumns (Alias t) (Fields t))
      | None => Ok "*"
      end
  end.

(** The callback of [appendColumns] on its captured variables (the buffer,
    the mark and the copy of the query), for a relation function that
    leaves the join's columns as they are. *)
Definition columnsStep (fmter : QueryFormatter) (j : join)
    (s : string * nat * SelectQuery) : result (string * nat * SelectQuery) :=
  let '(b, start, qc) := s in
  let '(b, start) :=
    if bool_decide (String.length b ≠ start)
    then (b +:+ ", ", String.length (b +:+ ", "))
    else (b, start) in
  Ok (b +:+ hasOneColumnsText fmter j, start, (applyQuery j qc).2).

Definition columnsText (fmter : QueryFormatter) (q : SelectQuery) : result string :=
  c ← baseColumnsText fmter q;
  Ok (Select.TrimSuffix
        (columnsFold (hasOneColumnsText fmter <$> relationJoins q) c 0) ", ").

(** The relation functions leave the column subset of the join they belong
    to as it is (as they do when no function is scoped to the relation). *)
Definition applyKeepsColumns : Prop :=
  forall (j : join) (q : SelectQuery), (applyQuery j q).1 = join_columns j.

End ColumnsText.

(** Induction on a query, with the property at hand for its union
    members. *)
Definition SelectQuery_rect' (P : SelectQuery -> Prop)
    (step : forall q, Forall (fun u => P u.2) (union_ q) -> P q) : forall q, P q :=
  fix F (q : SelectQuery) : P q :=
    match q as q0 return P q0 with
    | mkSelectQuery w d j g h o l off sf us =>
        step (mkSelectQuery w d j g h o l off sf us)
          ((fix G (l : list (string * SelectQuery)) : Forall (fun u => P u.2) l :=
              match l with
              | [] => Forall_nil_2 _
              | x :: l' => Forall_cons_2 (fun u => P u.2) x l' (F x.2) (G l')
              end) us)
    end.

(** The union members, each with its operator before it and in
    parentheses; [render] gives the text of a member. *)
Definition unionsText (render : SelectQuery -> result string)
    : list (string * SelectQuery) -> result string :=
  fix each (us : list (string * SelectQuery)) : result string :=
    match us with
    | [] => Ok ""
    | (expr, query) :: us' =>
        x ← render query;
        rest ← each us';
        Ok (expr +:+ "(" +:+ x +:+ ")" +:+ rest)
    end.

Section QueryText.
Context `{Collaborators}.

(** The text of a query: what [appendQuery] appends, [count] telling
    whether it renders the query or its count. *)
Fixpoint queryText (fmter : QueryFormatter) (q : SelectQuery) (count : bool)
    {struct q} : result string :=
  match err q with
  | Some e => Err e
  | None =>
      P ← selectText fmter q count;
      C ← (if count && negb (Select.cteCount q count) then Ok "count(*)"
           else columnsText fmter q);
      R ← fromToHavingText fmter q;
      U ← match union_ q with
          | [] => Ok ""
          | _ :: _ =>
              u ← unionsText (fun query => queryText fmter query false) (union_ q);
              Ok (")" +:+ u)
          end;
      Ok (P +:+ C +:+ R
          +:+ (if negb count then orderToForText fmter q else "")
          +:+ U
          +:+ (if Select.cteCount q count
               then ") SELECT count(*) FROM _count_wrapper" else ""))
  end.

End QueryText.

(** The reference relation functions change nothing. *)
Definition refKeepsColumns : @applyKeepsColumns refCollaborators :=
  fun j q => eq_refl.

(** A query with a GROUP BY clause and a limit. *)
Definition groupedT : SelectQuery := Select.Group ["name"] selectT.

(** ** Further example queries *)

(** A table with eleven fields. *)
Definition wideT : Table :=
  {| TypeName := "W"; Alias := "w"; SQLNameForSelects := "w";
     Fields := (fun n : nat => {| Name := "F" +:+ pretty n; SQLName := "f" +:+ pretty n;
                                 UserSQLType := "" |}) <$> seq 0 11;
     FieldMap := ∅ |}.

Definition selectWide : SelectQuery := withTable wideT [] newSelect.

(** A select whose only column is an identifier, on a query without a
    model. *)
Definition selectId : SelectQuery := Select.Column ["id"] (Select.Table ["t"] newSelect).

(** A has-one relation of the example entity. *)
Definition profileJoin : join :=
  {| Relation_Type := HasOneRelation; JoinModel_Table := entityT; JoinModel_GetJoins := [];
     join_columns := []; join_alias := "profile"; ApplyQueryFunc := None |}.

(** A select with a join. *)
Definition joinedT : SelectQuery := Select.Join "JOIN u" [] selectT.

(** ** The text of typed rows *)

(** The text of the row at index [i] of a typed source: the values of the
    fields, and the index of the row when the query is ordered. *)
Definition typedRowText (fmter : QueryFormatter) (q : Values.ValuesQuery)
    (fields : list Field) (i : nat) (s : strct) : string :=
  joined ", " (elementText fmter q s <$> fields)
  +:+ (if Values.withOrder q then ", " +:+ pretty (Z.of_nat i) else "").

(** A values query without a model. *)
Definition valuesNoModel : Values.ValuesQuery :=
  Values.NewValuesQuery pgDB (mkDBI 0) None None.

(** ** Scanning rows into a dynamic-row source ([model_map_slice.go]) *)

Module Scanner.

(** [*sql.Rows], given by what its calls yield: the column names, and for
    every row that [Next] announces the outcome of [Scan], which fills the
    fresh map [m.m] through the destinations of [makeDest].  After the last
    of them [Next] returns false. *)
Record Rows : Type := mkRows {
  Columns : result (list string);
  fetched : list (result (gmap string value))
}.

(** The model while it scans.  [*m.slicePtr] is a slice header: it shows
    the first [len] elements of a backing array, whose length is the
    capacity of the slice.  [columns] is the field of the embedded map
    model that [ScanRows] writes. *)
Record mapSliceModel : Type := mkMapSliceModel {
  array : list (gmap string value);
  len : nat;
  columns : list string
}.

(** The elements that the caller sees through [*m.slicePtr]. *)
Definition elements (m : mapSliceModel) : list (gmap string value) :=
  take (len m) (array m).

(** The local variable [slice]: a header of length [n] over the caller's
    array, until [append] outgrows the capacity and moves the elements to an
    array of its own. *)
Inductive local : Type :=
| shared (n : nat)
| own (l : list (gmap string value)).

(** [slice = append(slice, x)], on the caller's array [arr]: within the
    capacity the element is written into the array in place. *)
Definition append (arr : list (gmap string value)) (slice : local) (x : gmap string value)
    : list (gmap string value) * local :=
  match slice with
  | shared n =>
      if (n <? length arr)%nat then (<[n := x]> arr, shared (S n))
      else (arr, own (take n arr ++ [x]))
  | own l => (arr, own (l ++ [x]))
  end.

(** The loop [for rows.Next() { ... }]: the outcome, and the caller's array
    as the loop leaves it. *)
Fixpoint scanLoop (fetched : list (result (gmap string value)))
    (arr : list (gmap string value)) (slice : local) (n : nat)
    : result (local * nat) * list (gmap string value) :=
  match fetched with
  | [] => (Ok (slice, n), arr)
  | Ok row :: rest =>
      let '(arr, slice) := append arr slice row in
      scanLoop rest arr slice (S n)
  | Err e :: _ => (Err e, arr)
  | Panic msg :: _ => (Panic msg, arr)
  end.

(** [ScanRows].  On success the header is replaced by the local one (the
    spare capacity of an array of its own is left out); on failure the
    header stays and the array is as the loop left it. *)
Definition ScanRows (rows : Rows) (m : mapSliceModel) : result nat * mapSliceModel :=
  match Columns rows with
  | Ok columns =>
      let slice := if (0 <? len m)%nat then shared 0 else shared (len m) in
      match scanLoop (fetched rows) (array m) slice 0 with
      | (Ok (shared k, n), arr) => (Ok n, {| array := arr; len := k; columns := columns |})
      | (Ok (own l, n), arr) => (Ok n, {| array := l; len := length l; columns := columns |})
      | (Err e, arr) => (Err e, {| array := arr; len := len m; columns := columns |})
      | (Panic msg, arr) => (Panic msg, {| array := arr; len := len m; columns := columns |})
      end
  | Err e => (Err e, m)
  | Panic msg => (Panic msg, m)
  end.

End Scanner.

(** A slice of two rows, and rows of which the second fails to scan. *)
Definition scannedInto : Scanner.mapSliceModel :=
  {| Scanner.array := twoRows; Scanner.len := 2; Scanner.columns := [] |}.

Definition failingRows : Scanner.Rows :=
  {| Scanner.Columns := Ok ["a"];
     Scanner.fetched := [Ok {[ "a" := VInt 7 ]}; Err (errExternal "sql: Scan error")] |}.
(** * Properties *)

(** ** Examples: the model on concrete queries *)

Example formatQuery_literal :
  formatQuery (LiteralFormatter sqlQuote) "? = ?" [VStr "foo"; VStr "bar"] = "'foo' = 'bar'".
Proof. vm_compute. reflexivity. Qed.

Example formatQuery_nop :
  formatQuery NopFormatter "? = ?" [VStr "foo"; VStr "bar"] = "? = ?".
Proof. vm_compute. reflexivity. Qed.

Example formatQuery_int :
  formatQuery (LiteralFormatter sqlQuote) "id = ?" [VInt 5] = "id = 5".
Proof. vm_compute. reflexivity. Qed.

Lemma append_nil_l (s : string) : "" +:+ s = s.
Proof. reflexivity. Qed.

Lemma append_cons (c : ascii) (s t : string) : String c s +:+ t = String c (s +:+ t).
Proof. reflexivity. Qed.

Lemma append_nil_r (s : string) : s +:+ "" = s.
Proof.
  induction s as [|c s IH]; [reflexivity|].
  by rewrite append_cons, IH.
Qed.

Lemma append_assoc (s t u : string) : (s +:+ t) +:+ u = s +:+ (t +:+ u).
Proof.
  induction s as [|c s IH]; [reflexivity|].
  by rewrite !append_cons, IH.
Qed.

Lemma append_inv_nil (s t : string) : s +:+ t = s -> t = "".
Proof.
  induction s as [|c s IH]; [done|].
  rewrite append_cons. intros H. apply IH. by injection H.
Qed.

Lemma forRange_prefixed {A} (f : A -> string) (sep : string) (l : list A) :
  forall i b,
    forRange (fun i x b => Ok (sepIf i sep b +:+ f x)) (S i) l b
    = Ok (b +:+ prefixed sep (f <$> l)).
Proof.
  induction l as [|x l IH]; intros i b; cbn [forRange fmap list_fmap prefixed].
  - by rewrite append_nil_r.
  - cbn. rewrite IH. by rewrite !append_assoc.
Qed.

Lemma forRange_joined {A} (f : A -> string) (sep : string) (l : list A) (b : string) :
  forRange (fun i x b => Ok (sepIf i sep b +:+ f x)) 0 l b
  = Ok (b +:+ joined sep (f <$> l)).
Proof.
  destruct l as [|x l]; cbn.
  - by rewrite append_nil_r.
  - rewrite forRange_prefixed. by rewrite append_assoc.
Qed.

Lemma forRange_ext {A St} (f g : nat -> A -> St -> result St) (l : list A) :
  (forall i x s, f i x s = g i x s) ->
  forall i s, forRange f i l s = forRange g i l s.
Proof.
  intros Hfg. induction l as [|x l IH]; intros i s; simpl; [reflexivity|].
  rewrite Hfg. destruct (g i x s); simpl; [apply IH | reflexivity | reflexivity].
Qed.

Example two_rows_columns :
  (MapSlice.appendColumns (MapSlice.newMapSliceModel pgDB twoRows) (fmter pgDB) "").1
  = Ok "a, b".
Proof. vm_compute. reflexivity. Qed.

Example two_rows_values :
  (MapSlice.appendValues (MapSlice.newMapSliceModel pgDB twoRows) (fmter pgDB) "").1
  = Ok "VALUES (1, 2), (3, 4)".
Proof. vm_compute. reflexivity. Qed.

Example int32_small : int32 (-1) = -1 /\ int32 10 = 10.
Proof. split; reflexivity. Qed.

Example int32_wraps : int32 (2 ^ 31) = - 2 ^ 31.
Proof. reflexivity. Qed.

Example hookQuery_literal :
  (Select.AppendQuery (fmter pgDB) hookQuery "").1 = Ok "SELECT 1 WHERE ('foo' = 'bar')".
Proof. vm_compute. reflexivity. Qed.

Example hookQuery_placeholder :
  (Select.AppendQuery NopFormatter hookQuery "").1 = Ok "SELECT 1 WHERE (? = ?)".
Proof. vm_compute. reflexivity. Qed.

Example selectT_literal :
  (Select.AppendQuery (fmter pgDB) selectT "").1
  = Ok "SELECT t.id, t.name FROM t WHERE (id = 5) LIMIT 10".
Proof. vm_compute. reflexivity. Qed.

Example selectT_placeholder :
  (Select.AppendQuery NopFormatter selectT "").1
  = Ok "SELECT t.id, t.name FROM t WHERE (id = ?) LIMIT 10".
Proof. vm_compute. reflexivity. Qed.

Example selectT_count :
  (Select.appendQuery (fmter pgDB) selectT "" true).1
  = Ok "SELECT count(*) FROM t WHERE (id = 5)".
Proof. vm_compute. reflexivity. Qed.

Example selectT_group_count :
  (Select.appendQuery (fmter pgDB) (Select.Group ["name"] selectT) "" true).1
  = Ok "WITH _count_wrapper AS (SELECT t.id, t.name FROM t WHERE (id = 5) GROUP BY name) SELECT count(*) FROM _count_wrapper".
Proof. vm_compute. reflexivity. Qed.

Example typed_values_literal :
  (Values.AppendQuery (fmter pgDB) (valuesOf entityTyped [entityRow; entityRow]) "").1
  = Ok "VALUES (42::BIGINT, 'hello'::VARCHAR), (42::BIGINT, 'hello'::VARCHAR)".
Proof. vm_compute. reflexivity. Qed.

Example typed_values_order :
  (Values.AppendQuery NopFormatter
     (Values.WithOrder (valuesOf entityTyped [entityRow; entityRow])) "").1
  = Ok "VALUES (?::BIGINT, ?::VARCHAR, 0), (?::BIGINT, ?::VARCHAR, 1)".
Proof. vm_compute. reflexivity. Qed.

Example untyped_values :
  (Values.AppendQuery NopFormatter (valuesOf entityT [entityRow]) "").1
  = Ok "VALUES (?::, ?::)".
Proof. vm_compute. reflexivity. Qed.

(** ** Dynamic rows *)

Lemma sortStrings_sorted (l : list string) : Sorted String.le (MapSlice.sortStrings l).
Proof. apply Sorted_merge_sort; apply _. Qed.

Lemma sortStrings_perm (l : list string) : MapSlice.sortStrings l ≡ₚ l.
Proof. apply merge_sort_Permutation. Qed.

(** The order in which the keys of the first row are visited does not
    matter: sorting any enumeration of them gives the same list. *)
Lemma sortStrings_order (l l' : list string) :
  l ≡ₚ l' -> MapSlice.sortStrings l = MapSlice.sortStrings l'.
Proof.
  intros Hp. apply (Sorted_unique String.le).
  - apply sortStrings_sorted.
  - apply sortStrings_sorted.
  - by rewrite !sortStrings_perm.
Qed.

Lemma rangeKeys_elem (first : gmap string value) (k : string) :
  k ∈ MapSlice.rangeKeys first <-> is_Some (first !! k).
Proof.
  unfold MapSlice.rangeKeys. rewrite list_elem_of_fmap. split.
  - intros [[k' v] [-> Hin]]. apply elem_of_map_to_list in Hin. by exists v.
  - intros [v Hv]. exists (k, v). split; [done|]. by apply elem_of_map_to_list.
Qed.

Lemma rangeKeys_NoDup (first : gmap string value) : NoDup (MapSlice.rangeKeys first).
Proof. apply NoDup_fst_map_to_list. Qed.

Lemma initKeys_fresh (m : MapSlice.mapSliceModel) first rest :
  keysFixed m -> MapSlice.slice m = first :: rest ->
  exists m',
    MapSlice.initKeys m = (None, m')
    /\ MapSlice.keyList m' = MapSlice.sortStrings (MapSlice.rangeKeys first)
    /\ MapSlice.slice m' = MapSlice.slice m
    /\ MapSlice.db m' = MapSlice.db m
    /\ keysFixed m'.
Proof.
  intros Hk Hs. unfold MapSlice.initKeys, keysFixed, MapSlice.keyList in *.
  destruct (MapSlice.keys m) as [ks|] eqn:Hks.
  - exists m. rewrite Hks. destruct Hk as (f & r & Hs' & ->).
    rewrite Hs in Hs'. injection Hs' as <- <-. repeat split; try done.
    cbn. eauto.
  - rewrite Hs. eexists. split; [reflexivity|]. cbn. repeat split; try done.
    rewrite Hs. eauto.
Qed.

Lemma initKeys_empty (m : MapSlice.mapSliceModel) :
  keysFixed m -> MapSlice.slice m = [] ->
  MapSlice.initKeys m = (Some errMapSliceEmpty, m).
Proof.
  intros Hk Hs. unfold MapSlice.initKeys, keysFixed in *.
  destruct (MapSlice.keys m) as [ks|].
  - destruct Hk as (f & r & Hs' & _). congruence.
  - by rewrite Hs.
Qed.

Lemma appendColumns_first_row (m : MapSlice.mapSliceModel) fmter b first rest :
  keysFixed m -> MapSlice.slice m = first :: rest ->
  (MapSlice.appendColumns m fmter b).1
  = Ok (b +:+ joined ", " (MapSlice.sortStrings (MapSlice.rangeKeys first))).
Proof.
  intros Hk Hs. destruct (initKeys_fresh m first rest Hk Hs) as (m' & Hi & Hkl & _).
  unfold MapSlice.appendColumns. rewrite Hi. cbn [fst]. rewrite Hkl.
  unfold AppendIdent.
  rewrite (forRange_joined (fun k => k) ", "). by rewrite list_fmap_id.
Qed.

Lemma appendValues_rows (m : MapSlice.mapSliceModel) quote b first rest :
  keysFixed m -> MapSlice.slice m = first :: rest ->
  (MapSlice.appendValues m (LiteralFormatter quote) b).1
  = Ok (b +:+ "VALUES " +:+ rowOpen (MapSlice.db m)
          +:+ joined ("), " +:+ rowOpen (MapSlice.db m))
                (rowText quote (MapSlice.sortStrings (MapSlice.rangeKeys first))
                   <$> first :: rest)
          +:+ ")").
Proof.
  intros Hk Hs.
  destruct (initKeys_fresh m first rest Hk Hs) as (m' & Hi & Hkl & Hs' & Hdb & _).
  unfold MapSlice.appendValues. rewrite Hi. cbn [IsNopFormatter fst].
  rewrite Hkl, Hs', Hs.
  set (ks := MapSlice.sortStrings (MapSlice.rangeKeys first)).
  rewrite (forRange_ext _
    (fun i el b => Ok (sepIf i ("), " +:+ rowOpen (MapSlice.db m)) b +:+ rowText quote ks el))).
  - rewrite forRange_joined. cbn [mbind result_bind].
    unfold MapSlice.openRow, rowOpen. rewrite Hdb.
    destruct (hasValuesRow (MapSlice.db m)); by rewrite !append_assoc.
  - intros i el b0. unfold Append.
    rewrite (forRange_joined (fun k => argText (LiteralFormatter quote) (MapSlice.index el k))).
    unfold rowText, MapSlice.openRow, rowOpen. rewrite Hdb. cbn [argText].
    destruct i; cbn [sepIf]; [done|].
    destruct (hasValuesRow (MapSlice.db m)); by rewrite !append_assoc.
Qed.

Lemma appendValues_nop (m : MapSlice.mapSliceModel) b first rest :
  keysFixed m -> MapSlice.slice m = first :: rest ->
  (MapSlice.appendValues m NopFormatter b).1
  = Ok (b +:+ "VALUES " +:+ rowOpen (MapSlice.db m)
          +:+ joined ", " ((fun _ => "?") <$> MapSlice.sortStrings (MapSlice.rangeKeys first))).
Proof.
  intros Hk Hs.
  destruct (initKeys_fresh m first rest Hk Hs) as (m' & Hi & Hkl & Hs' & Hdb & _).
  unfold MapSlice.appendValues. rewrite Hi. cbn [IsNopFormatter fst].
  rewrite Hkl. rewrite (forRange_joined (fun _ => "?")).
  unfold MapSlice.openRow, rowOpen. rewrite Hdb.
  destruct (hasValuesRow (MapSlice.db m)); by rewrite !append_assoc.
Qed.

(** C4, as the specification words it, fails: the columns are those of the
    first row, also when that row is empty and a later one is not. *)
Lemma C4_first_row_may_be_empty :
  ~ columnsOfFirstNonEmptyRow
      (MapSlice.newMapSliceModel pgDB [∅; {[ "a" := VInt 1 ]}]) NopFormatter "".
Proof.
  intros Hc. specialize (Hc {[ "a" := VInt 1 ]} eq_refl).
  vm_compute in Hc. discriminate Hc.
Qed.

(** C4 (amended): for a dynamic-row source whose key list, if already
    fixed, is that of its first row, the rendered column list is the key
    set of the first row in increasing lexicographic order, rendered as
    identifiers; in literal mode every row is rendered by looking its
    values up by key in that same order; and rendering columns or values
    of an empty source fails with the error "map slice is empty". *)
Theorem C4_dynamic_rows (m : MapSlice.mapSliceModel) (fmter0 : QueryFormatter)
    (quote : value -> string) (b : string) :
  keysFixed m ->
  match MapSlice.slice m with
  | [] =>
      (MapSlice.appendColumns m fmter0 b).1 = Err errMapSliceEmpty
      /\ (MapSlice.appendValues m fmter0 b).1 = Err errMapSliceEmpty
  | first :: rest =>
      let ks := MapSlice.sortStrings (MapSlice.rangeKeys first) in
      Sorted String.le ks
      /\ NoDup ks
      /\ (forall k, k ∈ ks <-> is_Some (first !! k))
      /\ (MapSlice.appendColumns m fmter0 b).1 = Ok (b +:+ joined ", " ks)
      /\ (MapSlice.appendValues m (LiteralFormatter quote) b).1
         = Ok (b +:+ "VALUES " +:+ rowOpen (MapSlice.db m)
                 +:+ joined ("), " +:+ rowOpen (MapSlice.db m))
                       (rowText quote ks <$> first :: rest)
                 +:+ ")")
  end.
Proof.
  intros Hk. destruct (MapSlice.slice m) as [|first rest] eqn:Hs.
  - unfold MapSlice.appendColumns, MapSlice.appendValues.
    by rewrite (initKeys_empty m Hk Hs).
  - cbn zeta. split; [apply sortStrings_sorted|].
    split; [rewrite sortStrings_perm; apply rangeKeys_NoDup|].
    split; [intros k; rewrite sortStrings_perm; apply rangeKeys_elem|].
    split; [by apply (appendColumns_first_row m fmter0 b first rest)|].
    by apply appendValues_rows.
Qed.

Lemma C4_dynamic_rows_witness :
  keysFixed (MapSlice.newMapSliceModel pgDB twoRows)
  /\ (MapSlice.appendColumns (MapSlice.newMapSliceModel pgDB twoRows) NopFormatter "").1
     = Ok ("" +:+ joined ", "
             (MapSlice.sortStrings (MapSlice.rangeKeys {[ "a" := VInt 1; "b" := VInt 2 ]}))).
Proof.
  split; [exact I|].
  exact (proj1 (proj2 (proj2 (proj2
    (C4_dynamic_rows (MapSlice.newMapSliceModel pgDB twoRows) NopFormatter sqlQuote "" I))))).
Defined.

(** C5 (the code at the failing input): in placeholder mode the rows
    [{a:1, b:2}; {a:3, b:4}] are rendered as the opening parenthesis and
    one placeholder per column, and the closing parenthesis is missing. *)
Theorem C5_placeholder_values_unclosed :
  (MapSlice.appendValues (MapSlice.newMapSliceModel pgDB twoRows) NopFormatter "").1
  = Ok "VALUES (?, ?".
Proof. vm_compute. reflexivity. Qed.

(** ** Typed rows *)

Lemma AppendQuery_nodeText (fmter : QueryFormatter) (app : QueryWithArgs) (b : string) :
  sqlfmt.AppendQuery fmter app b = Ok (b +:+ nodeText fmter app).
Proof.
  unfold sqlfmt.AppendQuery, nodeText, AppendIdent, FormatQuery.
  by destruct (Args app).
Qed.



(** ** The sticky error *)

Lemma appendQuery_unfold `{Collaborators} fmter0 (q : SelectQuery) b count :
  Select.appendQuery fmter0 q b count
  = match err q with
    | Some e => (Err e, q)
    | None =>
        match Select.appendSelect fmter0 q b count with
        | Ok b =>
            let '(r, q1) := Select.appendColumnsToFor fmter0 q b count in
            match r with
            | Ok b =>
                match union_ q with
                | _ :: _ =>
                    let b := b +:+ ")" in
                    let '(r, us) :=
                      Select.appendUnions
                        (fun query b =>
                           Select.appendQuery (Select.formatterWithModel fmter0 query)
                             query b false)
                        (union_ q) b in
                    (b ← r; Ok (Select.closeCount q count b), set_union us q1)
                | [] => (Ok (Select.closeCount q count b), q1)
                end
            | Err e => (Err e, q1)
            | Panic msg => (Panic msg, q1)
            end
        | Err e => (Err e, q)
        | Panic msg => (Panic msg, q)
        end
    end.
Proof. destruct q; reflexivity. Qed.

Lemma appendQuery_failed `{Collaborators} fmter0 (q : SelectQuery) b count e :
  err q = Some e -> Select.appendQuery fmter0 q b count = (Err e, q).
Proof. intros He. rewrite appendQuery_unfold. by rewrite He. Qed.

Lemma restoreErr (q : SelectQuery) : updBase (set_err (err q)) (clearErr q) = q.
Proof. by destruct q as [[[]]]. Qed.

Lemma foldl_set_err {A} (f : SelectQuery -> A -> SelectQuery) x (l : list A) :
  (forall q a, f (updBase (set_err x) q) a = updBase (set_err x) (f q a)) ->
  forall q, foldl f (updBase (set_err x) q) l = updBase (set_err x) (foldl f q l).
Proof.
  intros Hf. induction l as [|a l IH]; intros q; cbn; [done|].
  by rewrite Hf, IH.
Qed.


(** What a builder call does to a query with a stored error, next to what it
    does to the same query without one. *)
Lemma run_with_error `{Collaborators} (c : Select.call) (q : SelectQuery) (e : error) :
  isApply c = false ->
  match Select.run c q with
  | Ok (r, q1) =>
      exists q',
        Select.run c (updBase (set_err (Some e)) q) = Ok (this, q')
        /\ r = this
        /\ clearErr q' = clearErr q1
        /\ err q' <> None
        /\ (err q1 = None -> err q' = Some e)
  | Err _ => False
  | Panic msg => Select.run c (updBase (set_err (Some e)) q) = Panic msg
  end.
Proof.
  intros Hc.
  destruct c; try discriminate Hc; cbn [Select.run Select.returns];
    try (eexists; split; [reflexivity|]; repeat split; done).
  - (* Table *)
    unfold Select.Table. rewrite foldl_set_err by done.
    eexists; split; [reflexivity|]; repeat split; done.
  - (* Column *)
    unfold Select.Column. rewrite foldl_set_err by done.
    eexists; split; [reflexivity|]; repeat split; done.
  - (* Group *)
    unfold Select.Group. rewrite foldl_set_err by done.
    eexists; split; [reflexivity|]; repeat split; done.
  - (* Order *)
    unfold Select.Order. rewrite foldl_set_err by done.
    eexists; split; [reflexivity|]; repeat split; done.
  - (* JoinOn *)
    unfold Select.JoinOn, Select.joinOn. cbn [joins updBase].
    destruct (joins q); eexists; (split; [reflexivity|]); repeat split; try done.
  - (* JoinOnOr *)
    unfold Select.JoinOnOr, Select.joinOn. cbn [joins updBase].
    destruct (joins q); eexists; (split; [reflexivity|]); repeat split; try done.
  - (* Relation *)
    unfold Select.Relation.
    destruct apply as [|fn [|fn' apply]]; cbn [mbind result_bind head].
    + change (tableModel_ (updBase (set_err (Some e)) q)) with (tableModel_ q).
      destruct (tableModel_ q) as [tm|]; [|done].
      destruct (tableModel_Join tm name None) as [[j|] tm'];
        cbn [mbind result_bind Select.returns];
        eexists; (split; [reflexivity|]); repeat split; try done.
    + change (tableModel_ (updBase (set_err (Some e)) q)) with (tableModel_ q).
      destruct (tableModel_ q) as [tm|]; [|done].
      destruct (tableModel_Join tm name (Some fn)) as [[j|] tm'];
        cbn [mbind result_bind Select.returns];
        eexists; (split; [reflexivity|]); repeat split; try done.
    + done.
Qed.

Lemma run_total `{Collaborators} (c : Select.call) (q : SelectQuery) :
  isApply c = false -> isRelation c = false ->
  exists q1, Select.run c q = Ok (this, q1).
Proof.
  intros Ha Hr. destruct c; try discriminate Ha; try discriminate Hr;
    cbn [Select.run Select.returns]; eauto.
Qed.



(** ** ScanAndCount *)

Section ScanAndCount.
Import Exec Run.
Context `{Collaborators}.
Variable driver : Driver.

Lemma Inv_init (q : SelectQuery) : Inv driver q (init q).
Proof.
  split; cbn; done.
Qed.

Ltac inv_simpl :=
  cbn [query main scanT countT wg mu firstErr count crashed scanned counted recorded
       active holds pending failure agrees finished orb andb negb head app
       Nat.add Nat.pred fst snd] in *.

Ltac inv_perm :=
  match goal with
  | Hp : _ ≡ₚ _ |- _ ≡ₚ _ =>
      cbn [app] in Hp; cbn [app];
      rewrite ?app_nil_r in Hp; rewrite ?app_nil_r;
      first [ exact Hp | rewrite Hp; solve_Permutation ]
  end.

Ltac inv_close :=
  inv_simpl;
  first [ done | lia | congruence | inv_perm
        | timeout 20 (intuition (first [ done | discriminate | congruence | lia ])) ].

Lemma Inv_stepMain (q : SelectQuery) (s s' : state) :
  crashed s = None -> Inv driver q s -> stepMain s = Some s' -> Inv driver q s'.
Proof.
  intros Hc [] Hs. unfold stepMain in Hs.
  destruct (main s) as [| | |c e] eqn:Hm.
  - destruct inv_start0 as [Hsc Hct]; [done|].
    rewrite Hsc, Hct in *.
    destruct (inv_noscan0 eq_refl) as (Hscd & Hq & _).
    cbn [agrees] in inv_count0. rewrite (Hq inv_count0) in Hs.
    case_bool_decide; simplify_eq; split; inv_close.
  - simplify_eq. rewrite (inv_spawning0 eq_refl) in *.
    split; inv_close.
  - destruct (wg s) eqn:Hwg; simplify_eq. split; try inv_close.
    inv_simpl. intros c e [= <- <-].
    destruct (scanT s) as [[]|], (countT s) as [[]|];
      inv_simpl; unfold finished; try discriminate; try lia; intuition congruence.
  - done.
Qed.

(** A goroutine that has not finished keeps the caller waiting. *)
Lemma Inv_not_returned (q : SelectQuery) (s : state) :
  Inv driver q s ->
  (forall p, scanT s = Some p -> p = Done) /\ countT s = Some Done
  \/ forall c e, main s <> Returned c e.
Proof.
  intros []. destruct (main s) as [| | |c e] eqn:Hm; try (right; congruence).
  left. destruct (inv_returned0 c e eq_refl) as ([Hf|Hf] & Hct & _);
    split; try done; intros p Hp; congruence.
Qed.

Lemma Inv_stepScan (q : SelectQuery) (s s' : state) :
  crashed s = None -> Inv driver q s -> stepScan driver s = Some s' -> Inv driver q s'.
Proof.
  intros Hc HI Hs.
  assert (Hnr : scanT s <> Some Done -> scanT s <> None ->
                forall c e, main s <> Returned c e).
  { intros Hd Hn. destruct (Inv_not_returned q s HI) as [[Hp _]|]; [|done].
    destruct (scanT s) as [p|]; [|done]. rewrite (Hp p eq_refl) in Hd. done. }
  destruct HI. unfold stepScan in Hs.
  destruct (scanT s) as [[|e|e|]|] eqn:Hsc; try done.
  all: specialize (Hnr ltac:(done) ltac:(done)); inv_simpl.
  - rewrite inv_scan0 in *.
    destruct (Exec.Scan driver (query s)) as [r q1] eqn:Hscan.
    destruct r as [[]|e|msg]; simplify_eq; split; inv_close.
  - destruct (mu s) eqn:Hmu; simplify_eq. split; try inv_close.
  - simplify_eq. split; try inv_close.
    inv_simpl. rewrite inv_first0. by destruct (recorded s).
Qed.

Lemma Inv_stepCount (q : SelectQuery) (s s' : state) :
  crashed s = None -> Inv driver q s -> stepCount driver s = Some s' -> Inv driver q s'.
Proof.
  intros Hc HI Hs.
  assert (Hnr : countT s <> Some Done -> forall c e, main s <> Returned c e).
  { intros Hd. destruct (Inv_not_returned q s HI) as [[_ Hp]|]; done. }
  destruct HI. unfold stepCount in Hs.
  destruct (countT s) as [[|e|e|]|] eqn:Hct; try done.
  all: specialize (Hnr ltac:(done)); inv_simpl.
  - rewrite inv_count0 in *.
    destruct (Exec.Count driver (query s)) as [r q1] eqn:Hcount.
    destruct r as [num|e|msg]; simplify_eq; split; try inv_close.
    all: inv_simpl; intros Hn; destruct (inv_noscan0 Hn) as (Hs1 & Hq & _);
      rewrite (Hq eq_refl) in Hcount;
      (split; [done|split; [done|]]); intros r [= <-]; by rewrite Hcount.
  - destruct (mu s) eqn:Hmu; simplify_eq. split; try inv_close.
  - simplify_eq. split; try inv_close.
    inv_simpl. rewrite inv_first0. by destruct (recorded s).
Qed.

Lemma Inv_step (q : SelectQuery) (t : tid) (s s' : state) :
  Inv driver q s -> step driver t s = Some s' -> Inv driver q s'.
Proof.
  intros HI Hs. unfold step in Hs.
  destruct (crashed s) eqn:Hc; [done|].
  destruct t.
  - by apply (Inv_stepMain q s).
  - by apply (Inv_stepScan q s).
  - by apply (Inv_stepCount q s).
Qed.

Lemma Inv_run (q : SelectQuery) (sched : list tid) (s : state) :
  Inv driver q s -> Inv driver q (run driver sched s).
Proof.
  revert s. induction sched as [|t sched IH]; intros s HI; [done|].
  cbn [run]. apply IH.
  destruct (step driver t s) as [s'|] eqn:Hs; [|done].
  by apply (Inv_step q t s).
Qed.

Lemma Inv_reachable (q : SelectQuery) (sched : list tid) :
  Inv driver q (run driver sched (init q)).
Proof. apply Inv_run, Inv_init. Qed.

Lemma returned_state (q : SelectQuery) (sched : list tid) (c : Z) (e : option error) :
  ScanAndCount driver q sched = Some (c, e) ->
  main (run driver sched (init q)) = Returned c e.
Proof.
  unfold ScanAndCount. destruct (main (run driver sched (init q))); congruence.
Qed.

Lemma failure_cases {A} (r : option (result A)) :
  failure r = [] \/ exists e, r = Some (Err e) /\ failure r = [e].
Proof. destruct r as [[]|]; cbn; eauto. Qed.

(** X1: when [ScanAndCount] returns, the error it returns is the first of
    the errors that the two goroutines brought to the mutex, and those are
    exactly the errors of the operations that failed: no error if none
    failed, the error of the one that failed if one did, and one of the two
    errors if both did. *)
Theorem ScanAndCount_first_error (q : SelectQuery) (sched : list tid)
    (c : Z) (e : option error) :
  ScanAndCount driver q sched = Some (c, e) ->
  let s := run driver sched (init q) in
  e = head (recorded s)
  /\ recorded s ≡ₚ failure (scanned s) ++ failure (counted s)
  /\ match failure (scanned s), failure (counted s) with
     | [], [] => e = None
     | [es], [] => e = Some es
     | [], [ec] => e = Some ec
     | [es], [ec] => e = Some es \/ e = Some ec
     | _, _ => False
     end.
Proof.
  intros Hr s. apply returned_state in Hr. fold s in Hr.
  destruct (Inv_reachable q sched). fold s in inv_returned0, inv_errors0, inv_first0.
  destruct (inv_returned0 c e Hr) as (Hf & Hct & _ & ->).
  assert (Hp : recorded s ≡ₚ failure (scanned s) ++ failure (counted s)).
  { symmetry. etrans; [exact inv_errors0|]. rewrite Hct.
    destruct Hf as [Hf | Hf]; rewrite Hf; cbn; by rewrite app_nil_r. }
  split; [done|]. split; [done|]. rewrite inv_first0.
  destruct (failure_cases (scanned s)) as [H1 | (es & _ & H1)],
           (failure_cases (counted s)) as [H2 | (ec & _ & H2)];
    rewrite H1, H2 in *; cbn in Hp |- *.
  - by apply Permutation_nil_r in Hp as ->.
  - by apply Permutation_singleton_r in Hp as ->.
  - by apply Permutation_singleton_r in Hp as ->.
  - symmetry in Hp. apply Permutation_length_2_inv in Hp as [-> | ->]; cbn; eauto.
Qed.

(** X2: when [ScanAndCount] returns, both goroutines that were started have
    run their operation to its end: [Count] always, [Scan] exactly when the
    limit is not negative; and the count it returns is the number [Count]
    gave, or 0 when [Count] failed, whatever error is returned with it. *)
Theorem ScanAndCount_completed (q : SelectQuery) (sched : list tid)
    (c : Z) (e : option error) :
  ScanAndCount driver q sched = Some (c, e) ->
  let s := run driver sched (init q) in
  (exists r, counted s = Some r
             /\ c = match r with Ok num => num | _ => 0 end)
  /\ (0 <= limit q <-> is_Some (scanned s))
  /\ countT s = Some Done
  /\ (scanT s = None \/ scanT s = Some Done)
  /\ wg s = 0%nat.
Proof.
  intros Hr s. apply returned_state in Hr. fold s in Hr.
  destruct (Inv_reachable q sched).
  fold s in inv_returned0, inv_count0, inv_scan0, inv_var0, inv_spawned0, inv_wg0.
  destruct (inv_returned0 c e Hr) as (Hf & Hct & -> & _).
  rewrite Hct in inv_count0, inv_wg0. cbn in inv_count0.
  destruct inv_count0 as [r Hcr].
  split; [exists r; split; [done|]; rewrite inv_var0, Hcr; by destruct r|].
  assert (Hm : main s <> Start) by congruence.
  specialize (inv_spawned0 Hm).
  split; [|split; [done|split; [done|]]].
  - destruct Hf as [Hn | Hd].
    + rewrite Hn in inv_scan0. cbn in inv_scan0. rewrite inv_scan0.
      split; [intros Hl; by apply inv_spawned0 in Hl | intros [? ?]; done].
    + rewrite Hd in inv_scan0. cbn in inv_scan0.
      split; [done|]. intros _.
      destruct (decide (0 <= limit q)) as [|Hneg]; [done|].
      apply inv_spawned0 in Hneg. congruence.
  - destruct Hf as [Hf | Hf]; rewrite Hf in inv_wg0; cbn in inv_wg0; lia.
Qed.


(** X4: under every schedule the two goroutines are never both inside the
    critical section, the mutex is held exactly while one of them is, the
    wait-group counter is the number of goroutines started and not yet
    finished, and the error slot holds the first error recorded. *)
Theorem ScanAndCount_mutual_exclusion (q : SelectQuery) (sched : list tid) :
  let s := run driver sched (init q) in
  holds (scanT s) && holds (countT s) = false
  /\ mu s = holds (scanT s) || holds (countT s)
  /\ wg s = (active (scanT s) + active (countT s))%nat
  /\ firstErr s = head (recorded s).
Proof. intros s. by destruct (Inv_reachable q sched). Qed.

Import Progress.

Lemma run_app (sched1 sched2 : list tid) (s : state) :
  run driver (sched1 ++ sched2) s = run driver sched2 (run driver sched1 s).
Proof. revert s. induction sched1 as [|t l IH]; intros s; cbn; [done|apply IH]. Qed.

Lemma step_decreases (q : SelectQuery) (t : tid) (s s' : state) :
  Inv driver q s -> step driver t s = Some s' -> (stepsLeft s' < stepsLeft s)%nat.
Proof.
  intros HI Hs. destruct (Inv_not_returned q s HI) as [[Hp Hq]|Hnr];
    destruct HI; unfold step in Hs; destruct (crashed s); try done;
    unfold stepsLeft; destruct t; cbn [stepMain stepScan stepCount] in Hs.
  all: unfold stepMain, stepScan, stepCount in Hs.
  all: destruct (main s) eqn:Hm; try done.
  all: try (destruct (inv_start0 eq_refl) as [Hs1 Hs2]; rewrite ?Hs1, ?Hs2 in * ).
  all: try (rewrite (inv_spawning0 eq_refl) in * ).
  all: repeat case_bool_decide.
  all: try (destruct (wg s); [|done]).
  all: try (destruct (scanT s) as [[]|] eqn:Hsc; try done).
  all: try (destruct (countT s) as [[]|] eqn:Hct; try done).
  all: try (destruct (Scan driver (query s)) as [[[]| |] ?]).
  all: try (destruct (Count driver (query s)) as [[| |] ?]).
  all: try (destruct (mu s); [done|]).
  all: simplify_eq; cbn; try lia.
  all: try (specialize (Hp _ eq_refl); done).
  all: try (exfalso; by eapply Hnr).
Qed.

Lemma deadlock_free (q : SelectQuery) (s : state) :
  Inv driver q s -> ~ stopped s -> exists t s', step driver t s = Some s'.
Proof.
  intros HI Hns. unfold stopped in Hns.
  assert (Hc : crashed s = None).
  { destruct (crashed s); [|done]. exfalso. apply Hns. by right. }
  destruct HI. unfold step. rewrite Hc.
  destruct (main s) eqn:Hm.
  - exists Main. unfold stepMain. rewrite Hm. case_bool_decide; eauto.
  - exists Main. unfold stepMain. rewrite Hm. eauto.
  - destruct (wg s) eqn:Hwg.
    { exists Main. unfold stepMain. rewrite Hm, Hwg. eauto. }
    destruct (scanT s) as [[|e1|e1|]|] eqn:Hsc.
    + exists ScanThread. unfold stepScan. rewrite Hsc.
      destruct (Scan driver (query s)). eauto.
    + destruct (countT s) as [[|e2|e2|]|] eqn:Hct.
      * exists CountThread. unfold stepCount. rewrite Hct.
        destruct (Count driver (query s)). eauto.
      * exists ScanThread. unfold stepScan. rewrite Hsc.
        cbn in inv_mu0. rewrite inv_mu0. eauto.
      * exists CountThread. unfold stepCount. rewrite Hct. eauto.
      * exists ScanThread. unfold stepScan. rewrite Hsc.
        cbn in inv_mu0. rewrite inv_mu0. eauto.
      * exists ScanThread. unfold stepScan. rewrite Hsc.
        cbn in inv_mu0. rewrite inv_mu0. eauto.
    + exists ScanThread. unfold stepScan. rewrite Hsc. eauto.
    + destruct (countT s) as [[|e2|e2|]|] eqn:Hct; cbn in inv_wg0; try lia.
      * exists CountThread. unfold stepCount. rewrite Hct.
        destruct (Count driver (query s)). eauto.
      * exists CountThread. unfold stepCount. rewrite Hct.
        cbn in inv_mu0. rewrite inv_mu0. eauto.
      * exists CountThread. unfold stepCount. rewrite Hct. eauto.
    + destruct (countT s) as [[|e2|e2|]|] eqn:Hct; cbn in inv_wg0; try lia.
      * exists CountThread. unfold stepCount. rewrite Hct.
        destruct (Count driver (query s)). eauto.
      * exists CountThread. unfold stepCount. rewrite Hct.
        cbn in inv_mu0. rewrite inv_mu0. eauto.
      * exists CountThread. unfold stepCount. rewrite Hct. eauto.
  - exfalso. apply Hns. left. eauto.
Qed.

Lemma stopped_dec (s : state) : stopped s \/ ~ stopped s.
Proof.
  unfold stopped. destruct (crashed s) as [msg|] eqn:Hc; [left; right; done|].
  destruct (main s) as [| | |c e] eqn:Hm; [right|right|right|left; left; eauto];
    intros [(c & e & He)|Hn]; congruence.
Qed.

Lemma runs_to_stop (q : SelectQuery) (n : nat) :
  forall s, Inv driver q s -> (stepsLeft s <= n)%nat ->
    exists sched, (length sched <= n)%nat /\ stopped (run driver sched s).
Proof.
  induction n as [|n IH]; intros s HI Hn.
  - exists []. split; [done|]. cbn.
    destruct (main s) eqn:Hm; unfold stepsLeft in Hn; rewrite Hm in Hn; try lia.
    left. eauto.
  - destruct (stopped_dec s) as [Hst|Hst].
    { exists []. split; [cbn; lia|done]. }
    destruct (deadlock_free q s HI Hst) as (t & s' & Hs).
    destruct (IH s') as (sched & Hlen & Hstop).
    + by apply (Inv_step q t s).
    + pose proof (step_decreases q t s s' HI Hs). lia.
    + exists (t :: sched). split; [cbn; lia|]. cbn [run]. by rewrite Hs.
Qed.


End ScanAndCount.

Example ScanAndCount_scan_fails :
  Exec.ScanAndCount scanFailsDriver selectT Run.finish
  = Some (7, Some (errExternal "connection reset")).
Proof. vm_compute. reflexivity. Qed.

Lemma ScanAndCount_first_error_witness :
  Exec.ScanAndCount scanFailsDriver selectT Run.finish
  = Some (7, Some (errExternal "connection reset"))
  /\ Some (errExternal "connection reset")
     = head (Exec.recorded (Exec.run scanFailsDriver Run.finish (Exec.init selectT))).
Proof.
  assert (Hr : Exec.ScanAndCount scanFailsDriver selectT Run.finish
               = Some (7, Some (errExternal "connection reset")))
    by (vm_compute; reflexivity).
  split; [exact Hr|].
  exact (proj1 (ScanAndCount_first_error scanFailsDriver selectT Run.finish 7
                  (Some (errExternal "connection reset")) Hr)).
Defined.

Lemma ScanAndCount_completed_witness :
  Exec.ScanAndCount scanFailsDriver selectT Run.finish
  = Some (7, Some (errExternal "connection reset"))
  /\ Exec.wg (Exec.run scanFailsDriver Run.finish (Exec.init selectT)) = 0%nat.
Proof.
  assert (Hr : Exec.ScanAndCount scanFailsDriver selectT Run.finish
               = Some (7, Some (errExternal "connection reset")))
    by (vm_compute; reflexivity).
  split; [exact Hr|].
  exact (proj2 (proj2 (proj2 (proj2
    (ScanAndCount_completed scanFailsDriver selectT Run.finish 7
       (Some (errExternal "connection reset")) Hr))))).
Defined.


Example ScanAndCount_count_only :
  Exec.ScanAndCount scanFailsDriver (Select.Limit (-1) selectT) Run.finish = Some (7, None).
Proof. vm_compute. reflexivity. Qed.

(** ** The walk over the relation joins *)

Lemma hasOneJoinsOf_unfold (j : join) :
  hasOneJoinsOf j
  = if Select.isHasOne j then j :: hasOneJoins (JoinModel_GetJoins j) else [].
Proof.
  destruct j as [ty tb subs cols al ap]. cbn [hasOneJoinsOf JoinModel_GetJoins].
  assert (Heq : (fix each (joins : list join) : list join :=
                   match joins with
                   | [] => []
                   | j' :: joins' => hasOneJoinsOf j' ++ each joins'
                   end) subs = hasOneJoins subs).
  { induction subs as [|x l IH]; [done|]. cbn. by rewrite IH. }
  by rewrite Heq.
Qed.

Lemma forRange_shift {A St} (f : A -> St -> result St) (l : list A) :
  forall i j s, forRange (fun _ x s => f x s) i l s = forRange (fun _ x s => f x s) j l s.
Proof.
  induction l as [|x l IH]; intros i j s; cbn; [done|].
  destruct (f x s); cbn; [apply IH|done|done].
Qed.

Lemma forEach_cons {A St} (f : A -> St -> result St) (x : A) (l : list A) (s : St) :
  forEach f (x :: l) s = (s' ← f x s; forEach f l s').
Proof.
  unfold forEach. cbn. destruct (f x s); cbn; [|done|done].
  apply forRange_shift.
Qed.

Lemma forEach_app {A St} (f : A -> St -> result St) (l1 l2 : list A) (s : St) :
  forEach f (l1 ++ l2) s = (s' ← forEach f l1 s; forEach f l2 s').
Proof.
  revert s. induction l1 as [|x l1 IH]; intros s; [done|].
  cbn [app]. rewrite !forEach_cons. destruct (f x s); cbn; [apply IH|done|done].
Qed.

Lemma join_eta (j : join) :
  Select.set_join_joins (JoinModel_GetJoins j)
    (Select.set_join_columns (join_columns j) j) = j.
Proof. by destruct j. Qed.

Section Walk.
Context {St : Type}.
Variable f : join -> St -> result St.

Lemma visitHasOneJoin_unfold (g : join -> St -> list QueryWithArgs * result St)
    (j : join) (s : St) :
  Select.visitHasOneJoin g j s
  = if Select.isHasOne j then
      let '(cols, r) := g j s in
      let '(subs, r) :=
        match r with
        | Ok s => Select._forEachHasOneJoin g (JoinModel_GetJoins j) s
        | _ => (JoinModel_GetJoins j, r)
        end in
      (Select.set_join_joins subs (Select.set_join_columns cols j), r)
    else (j, Ok s).
Proof.
  destruct j as [ty tb subs cols al ap].
  cbn [Select.visitHasOneJoin JoinModel_GetJoins].
  destruct (Select.isHasOne _); [|done].
  destruct (g _ s) as [cols' r]. destruct r as [s1| |]; try done.
  assert (Heq : forall l s,
    (fix each (joins : list join) (s0 : St) {struct joins} : list join * result St :=
       match joins with
       | [] => ([], Ok s0)
       | j' :: joins' =>
           let '(j'0, r) := Select.visitHasOneJoin g j' s0 in
           match r with
           | Ok s2 => let '(joins'0, r0) := each joins' s2 in (j'0 :: joins'0, r0)
           | _ => (j'0 :: joins', r)
           end
       end) l s = Select._forEachHasOneJoin g l s).
  { induction l as [|x l IH]; intros s0; [done|]. cbn.
    destruct (Select.visitHasOneJoin g x s0) as [x' [s2| |]]; try done.
    by rewrite IH. }
  by rewrite Heq.
Qed.

Lemma visit_pure (j : join) :
  forall s, Select.visitHasOneJoin (fun j s => (join_columns j, f j s)) j s
            = (j, forEach f (hasOneJoinsOf j) s).
Proof.
  induction j as [j IH] using join_rect'. intros s.
  rewrite visitHasOneJoin_unfold, hasOneJoinsOf_unfold.
  destruct (Select.isHasOne j); [|done].
  rewrite forEach_cons.
  destruct (f j s) as [s1|e|msg]; cbn [mbind result_bind];
    [|by rewrite join_eta|by rewrite join_eta].
  assert (Hsubs : forall s,
            Select._forEachHasOneJoin (fun j s => (join_columns j, f j s))
              (JoinModel_GetJoins j) s
            = (JoinModel_GetJoins j, forEach f (hasOneJoins (JoinModel_GetJoins j)) s)).
  { clear s s1. induction IH as [|x l Hx Hl IHl]; intros s; [done|].
    cbn [Select._forEachHasOneJoin]. rewrite Hx.
    unfold hasOneJoins. cbn [flat_map]. rewrite forEach_app.
    destruct (forEach f (hasOneJoinsOf x) s) as [s2| |]; cbn [mbind result_bind];
      try done.
    by rewrite IHl. }
  rewrite Hsubs. by rewrite join_eta.
Qed.

Lemma forEachHasOneJoin_pure (joins : list join) :
  forall s, Select._forEachHasOneJoin (fun j s => (join_columns j, f j s)) joins s
            = (joins, forEach f (hasOneJoins joins) s).
Proof.
  induction joins as [|x l IH]; intros s; [done|].
  cbn [Select._forEachHasOneJoin]. rewrite visit_pure.
  unfold hasOneJoins. cbn [flat_map]. rewrite forEach_app.
  destruct (forEach f (hasOneJoinsOf x) s) as [s2| |]; cbn [mbind result_bind]; try done.
  by rewrite IH.
Qed.

End Walk.

Lemma set_GetJoins_same (q : SelectQuery) (tm : tableModel) :
  tableModel_ q = Some tm -> Select.set_GetJoins (GetJoins tm) q = q.
Proof.
  unfold Select.set_GetJoins, tableModel_. intros Hq.
  destruct q as [[[d i e m tb w mt ts cs fl] wh] dOn js g h o l off sf u].
  cbn in *. destruct m as [[tm'| |]|]; try done.
  injection Hq as ->. by destruct tm.
Qed.

Lemma hasOneJoins_all (joins : list join) :
  Forall (fun j => Select.isHasOne j = true) (hasOneJoins joins).
Proof.
  unfold hasOneJoins. induction joins as [|x l IH]; [constructor|].
  cbn [flat_map]. apply Forall_app. split; [|done]. clear IH l.
  induction x as [j IH] using join_rect'. rewrite hasOneJoinsOf_unfold.
  destruct (Select.isHasOne j) eqn:Hj; [|constructor].
  constructor; [done|]. unfold hasOneJoins.
  induction IH as [|y l Hy Hl IHl]; [constructor|].
  cbn [flat_map]. apply Forall_app. by split.
Qed.

(** X6: [forEachHasOneJoin], with a callback that does not write to the
    join, calls it on the has-one and belongs-to joins of the table model
    in depth-first order, a join before the joins below it, never on a
    join of another kind nor on anything below one, stops at the first
    error and returns it, and leaves the query as it is; without a table
    model it calls nothing. *)
Theorem forEachHasOneJoin_walk {St : Type} (f : join -> St -> result St)
    (q : SelectQuery) (s : St) :
  Select.forEachHasOneJoin (fun j s => (join_columns j, f j s)) q s
  = (match tableModel_ q with
     | None => Ok s
     | Some tm => forEach f (hasOneJoins (GetJoins tm)) s
     end, q)
  /\ (forall j, hasOneJoinsOf j
                = if Select.isHasOne j then j :: hasOneJoins (JoinModel_GetJoins j) else [])
  /\ (forall joins, Forall (fun j => Select.isHasOne j = true) (hasOneJoins joins)).
Proof.
  split; [|split; [apply hasOneJoinsOf_unfold|apply hasOneJoins_all]].
  unfold Select.forEachHasOneJoin.
  destruct (tableModel_ q) as [tm|] eqn:Hq; [|done].
  rewrite forEachHasOneJoin_pure. by rewrite set_GetJoins_same.
Qed.

Section Loader.
Import Exec.
Variable driver : Driver.

Lemma loadedJoinsOf_unfold (j : join) :
  loadedJoinsOf j
  = if Select.isHasOne j then loadedJoins (JoinModel_GetJoins j) else [j].
Proof.
  destruct j as [ty tb subs cols al ap]. cbn [loadedJoinsOf JoinModel_GetJoins].
  assert (Heq : (fix each (joins : list join) : list join :=
                   match joins with
                   | [] => []
                   | j' :: joins' => loadedJoinsOf j' ++ each joins'
                   end) subs = loadedJoins subs).
  { induction subs as [|x l IH]; [done|]. cbn. by rewrite IH. }
  by rewrite Heq.
Qed.

Lemma firstError_app (l1 l2 : list (option error)) :
  firstError (l1 ++ l2)
  = match firstError l1 with Some e => Some e | None => firstError l2 end.
Proof. induction l1 as [|[e|] l1 IH]; cbn; done. Qed.

Lemma selectJoin_unfold (j : join) :
  selectJoin driver j
  = if Select.isHasOne j then selectJoins driver (JoinModel_GetJoins j)
    else join_Select driver j.
Proof.
  destruct j as [ty tb subs cols al ap].
  cbn [selectJoin JoinModel_GetJoins Relation_Type Select.isHasOne].
  assert (Heq : (fix each (joins : list join) : option error :=
                   match joins with
                   | [] => None
                   | j' :: joins' =>
                       match selectJoin driver j' with
                       | Some e => Some e
                       | None => each joins'
                       end
                   end) subs = selectJoins driver subs).
  { induction subs as [|x l IH]; [done|]. cbn. by rewrite IH. }
  destruct ty; by rewrite ?Heq.
Qed.

Lemma selectJoin_loaded (j : join) :
  selectJoin driver j = firstError (join_Select driver <$> loadedJoinsOf j).
Proof.
  induction j as [j IH] using join_rect'.
  rewrite selectJoin_unfold, loadedJoinsOf_unfold.
  destruct (Select.isHasOne j).
  - unfold loadedJoins. induction IH as [|x l Hx Hl IHl]; [done|].
    cbn [selectJoins flat_map]. rewrite fmap_app, firstError_app, <- Hx.
    destruct (selectJoin driver x); [done|]. apply IHl.
  - cbn. by destruct (join_Select driver j).
Qed.


End Loader.

Example distinctOn_two :
  (Select.AppendQuery NopFormatter
     (Select.DistinctOn "b" [] (Select.DistinctOn "a" [] newSelect)) "").1
  = Ok "SELECT DISTINCT ON (a, b) *".
Proof. vm_compute. reflexivity. Qed.


(** ** Rendering appends *)

Lemma forRange_text {A} (body : nat -> A -> string -> result string)
    (g : nat -> A -> string) (l : list A) :
  (forall i x b, body i x b = Ok (b +:+ g i x)) ->
  forall i b, forRange body i l b = Ok (b +:+ textOf g i l).
Proof.
  intros Hb. induction l as [|x l IH]; intros i b; cbn [forRange textOf].
  - by rewrite append_nil_r.
  - rewrite Hb. cbn [mbind result_bind]. rewrite IH. by rewrite append_assoc.
Qed.

Lemma nodes_loop (fmter0 : QueryFormatter) (sep : string) (l : list QueryWithArgs)
    (b : string) :
  forRange (fun i app b => sqlfmt.AppendQuery fmter0 app (sepIf i sep b)) 0 l b
  = Ok (b +:+ nodesText fmter0 sep l).
Proof.
  rewrite (forRange_ext _ (fun i app b => Ok (sepIf i sep b +:+ nodeText fmter0 app))).
  - apply forRange_joined.
  - intros. apply AppendQuery_nodeText.
Qed.

Lemma joinQuery_AppendQuery_text (fmter0 : QueryFormatter)
    (j : joinQuery) (b : string) :
  Select.joinQuery_AppendQuery fmter0 j b = Ok (b +:+ joinQueryText fmter0 j).
Proof.
  unfold Select.joinQuery_AppendQuery, joinQueryText.
  rewrite AppendQuery_nodeText. cbn [mbind result_bind].
  destruct (on j) as [|c cs] eqn:Hon.
  - by rewrite append_nil_r, !append_assoc.
  - rewrite <- Hon.
    rewrite (forRange_text _
      (fun i (c : QueryWithSep) =>
         (match i with O => "" | S _ => Sep c end) +:+ "(" +:+ nodeText fmter0 c +:+ ")")).
    + unfold onText. by rewrite !append_assoc.
    + intros i x b0. rewrite AppendQuery_nodeText. cbn [mbind result_bind].
      destruct i; cbn [sepIf]; by rewrite !append_assoc.
Qed.

Lemma length_append (s t : string) :
  String.length (s +:+ t) = (String.length s + String.length t)%nat.
Proof.
  induction s as [|c s IH]; [done|]. rewrite append_cons. cbn. by rewrite IH.
Qed.

Lemma length_zero (s : string) : String.length s = 0%nat <-> s = "".
Proof. destruct s; cbn; split; intros; congruence. Qed.

Lemma formatQuery_nil (fmter0 : QueryFormatter) (query : string) :
  formatQuery fmter0 query [] = query.
Proof.
  induction query as [|c s IH]; [done|]. cbn [formatQuery].
  destruct (Ascii.eqb c "?"); by rewrite IH.
Qed.

Section ClauseLemmas.
Context `{Collaborators}.
Variable fmter0 : QueryFormatter.

Lemma appendOrder_text (q : SelectQuery) (b : string) :
  Select.appendOrder fmter0 q b = Ok (b +:+ orderText fmter0 q).
Proof.
  unfold Select.appendOrder, orderText. destruct (order q) as [|x l] eqn:Ho.
  - by rewrite append_nil_r.
  - rewrite <- Ho, nodes_loop. by rewrite append_assoc.
Qed.

Lemma appendOrderToFor_text (q : SelectQuery) (b : string) :
  Select.appendOrderToFor fmter0 q b = Ok (b +:+ orderToForText fmter0 q).
Proof.
  unfold Select.appendOrderToFor, orderToForText, Select.AppendInt.
  rewrite appendOrder_text. cbn [mbind result_bind].
  destruct (bool_decide (limit q ≠ 0)), (bool_decide (offset q ≠ 0)),
    (negb (IsZero (selFor q)));
    rewrite ?AppendQuery_nodeText, ?append_nil_r, ?append_assoc; reflexivity.
Qed.

Lemma appendSelect_text (q : SelectQuery) (b : string) (count : bool) :
  Select.appendSelect fmter0 q b count = (t ← selectText fmter0 q count; Ok (b +:+ t)).
Proof.
  unfold Select.appendSelect, selectText, distinctText.
  destruct (appendWith fmter0 q) as [t| |]; cbn [mbind result_bind]; [|done|done].
  destruct (distinctOn q) as [[|x l]|]; cbn [mbind result_bind];
    rewrite ?nodes_loop; cbn [mbind result_bind];
    destruct (Select.cteCount q count), (0 <? length (union_ q))%nat;
    rewrite ?append_nil_r, ?append_assoc; reflexivity.
Qed.

Lemma tables_loop (b0 acc : string) (l : list QueryWithArgs) :
  forall i,
    forRange (fun _ table b =>
        let b := if (String.length b0 <? String.length b)%nat then b +:+ ", " else b in
        sqlfmt.AppendQuery fmter0 table b) i l (b0 +:+ acc)
    = Ok (b0 +:+ commaFold fmter0 acc l).
Proof.
  revert acc. induction l as [|x l IH]; intros acc i; [done|].
  cbn [forRange]. rewrite AppendQuery_nodeText. cbn [mbind result_bind commaFold foldl].
  assert (Hlen : (String.length b0 <? String.length (b0 +:+ acc))%nat
                 = negb (bool_decide (acc = ""))).
  { rewrite length_append. case_bool_decide as Ha.
    - subst acc. cbn. apply Nat.ltb_ge. lia.
    - cbn. apply Nat.ltb_lt. destruct acc; [done|cbn; lia]. }
  rewrite Hlen. case_bool_decide; cbn [negb]; rewrite ?append_assoc; apply IH.
Qed.

Lemma appendTables_text (q : SelectQuery) (b : string) :
  Select.appendTables fmter0 q b = (t ← tablesText fmter0 q; Ok (b +:+ t)).
Proof.
  unfold Select.appendTables, tablesText, modelTableText, FormatQuery.
  destruct (modelHasTableName q); cbn [mbind result_bind].
  - destruct (negb (IsZero (modelTable q))); cbn [mbind result_bind].
    + rewrite AppendQuery_nodeText. cbn [mbind result_bind].
      rewrite tables_loop. by rewrite append_assoc.
    + destruct (table q) as [t|]; [|done]. rewrite formatQuery_nil.
      case_bool_decide; cbn [mbind result_bind].
      * rewrite !append_assoc, <- (append_assoc b " FROM "). rewrite tables_loop.
        by rewrite !append_assoc.
      * rewrite append_nil_r. rewrite tables_loop. by rewrite append_assoc.
  - pose proof (tables_loop (b +:+ " FROM ") "" (tables q) 0) as Ht.
    rewrite append_nil_r in Ht. cbn zeta in Ht |- *. rewrite Ht.
    by rewrite append_assoc.
Qed.

Lemma forEach_shift {A} (h : A -> result string) (l : list A) :
  forall b,
    forEach (fun x t => y ← h x; Ok (t +:+ " " +:+ y)) l b
    = (t ← forEach (fun x t => y ← h x; Ok (t +:+ " " +:+ y)) l ""; Ok (b +:+ t)).
Proof.
  induction l as [|x l IH]; intros b.
  - cbn. by rewrite append_nil_r.
  - rewrite !forEach_cons. destruct (h x) as [y| |]; cbn [mbind result_bind]; try done.
    rewrite (IH (b +:+ " " +:+ y)), (IH ("" +:+ " " +:+ y)).
    destruct (forEach _ l "") as [t| |]; cbn [mbind result_bind]; try done.
    by rewrite !append_assoc.
Qed.

Lemma hasOneJoins_text (q : SelectQuery) (b : string) :
  (Select.forEachHasOneJoin (fun j b =>
      (join_columns j,
       let b := b +:+ " " in
       t ← appendHasOneJoin fmter0 j q; Ok (b +:+ t))) q b).1
  = (t ← hasOneJoinsText fmter0 q; Ok (b +:+ t)).
Proof.
  destruct (forEachHasOneJoin_walk
              (fun j b => let b := b +:+ " " in
                          t ← appendHasOneJoin fmter0 j q; Ok (b +:+ t)) q b) as [Hw _].
  rewrite Hw. cbn [fst]. unfold hasOneJoinsText.
  destruct (tableModel_ q) as [tm|]; [|cbn; by rewrite append_nil_r].
  rewrite <- (forEach_shift (fun j => appendHasOneJoin fmter0 j q)).
  unfold forEach. apply forRange_ext. intros _ j s.
  destruct (appendHasOneJoin fmter0 j q); cbn [mbind result_bind]; try done.
  by rewrite append_assoc.
Qed.

Lemma appendFromToHaving_text (q : SelectQuery) (b : string) :
  Select.appendFromToHaving fmter0 q b = (t ← fromToHavingText fmter0 q; Ok (b +:+ t)).
Proof.
  unfold Select.appendFromToHaving, fromToHavingText.
  assert (H1 : (if hasTables q then Select.appendTables fmter0 q b else Ok b)
               = (t ← (if hasTables q then tablesText fmter0 q else Ok ""); Ok (b +:+ t))).
  { destruct (hasTables q); [apply appendTables_text|cbn; by rewrite append_nil_r]. }
  rewrite H1.
  destruct (if hasTables q then tablesText fmter0 q else Ok "") as [t1| |];
    cbn [mbind result_bind]; [|done|done].
  rewrite hasOneJoins_text.
  destruct (hasOneJoinsText fmter0 q) as [t2| |]; cbn [mbind result_bind]; [|done|done].
  rewrite (forRange_text _ (fun _ j => joinQueryText fmter0 j))
    by (intros; apply joinQuery_AppendQuery_text).
  cbn [mbind result_bind].
  destruct (appendWhere fmter0 q) as [t3| |]; cbn [mbind result_bind]; [|done|done].
  unfold groupText, havingText.
  destruct (group q) as [|g gs] eqn:Hg; cbn [mbind result_bind].
  - destruct (having q) as [|h hs] eqn:Hh.
    + by rewrite !append_nil_r, !append_assoc.
    + rewrite <- Hh.
      rewrite (forRange_ext _
        (fun i f b => Ok (sepIf i " AND " b +:+ ("(" +:+ nodeText fmter0 f +:+ ")")))).
      * rewrite forRange_joined. by rewrite !append_assoc.
      * intros i f b0. rewrite AppendQuery_nodeText. cbn [mbind result_bind].
        by rewrite !append_assoc.
  - rewrite <- Hg, nodes_loop. cbn [mbind result_bind].
    destruct (having q) as [|h hs] eqn:Hh.
    + by rewrite !append_nil_r, !append_assoc.
    + rewrite <- Hh.
      rewrite (forRange_ext _
        (fun i f b => Ok (sepIf i " AND " b +:+ ("(" +:+ nodeText fmter0 f +:+ ")")))).
      * rewrite forRange_joined. by rewrite !append_assoc.
      * intros i f b0. rewrite AppendQuery_nodeText. cbn [mbind result_bind].
        by rewrite !append_assoc.
Qed.

End ClauseLemmas.

(** ** Trimming a suffix *)

Lemma substring_0_app (s t : string) : substring 0 (String.length s) (s +:+ t) = s.
Proof.
  induction s as [|c s IH]; cbn.
  - by destruct t.
  - rewrite append_cons. cbn. by rewrite IH.
Qed.

Lemma substring_0_all (t : string) : substring 0 (String.length t) t = t.
Proof. induction t as [|c t IH]; cbn; [done|by rewrite IH]. Qed.

Lemma substring_len_app (s t : string) :
  substring (String.length s) (String.length t) (s +:+ t) = t.
Proof.
  induction s as [|c s IH]; cbn.
  - apply substring_0_all.
  - rewrite append_cons. cbn. apply IH.
Qed.

Lemma substring_split (s : string) :
  forall n, (n <= String.length s)%nat ->
    substring 0 n s +:+ substring n (String.length s - n) s = s.
Proof.
  induction s as [|c s IH]; intros n Hn.
  - cbn in Hn. assert (n = 0%nat) as -> by lia. done.
  - destruct n as [|n].
    + cbn. by rewrite substring_0_all.
    + cbn in Hn. cbn [substring String.length Nat.sub]. rewrite append_cons.
      rewrite IH by lia. done.
Qed.

Lemma TrimSuffix_suffix (s suffix : string) : Select.TrimSuffix (s +:+ suffix) suffix = s.
Proof.
  unfold Select.TrimSuffix. rewrite length_append.
  replace (String.length s + String.length suffix - String.length suffix)%nat
    with (String.length s) by lia.
  rewrite substring_len_app, String.eqb_refl, substring_0_app.
  replace (String.length suffix <=? String.length s + String.length suffix)%nat
    with true by (symmetry; apply Nat.leb_le; lia).
  done.
Qed.

Lemma TrimSuffix_cases (s suffix : string) :
  (exists s', s = s' +:+ suffix) \/ Select.TrimSuffix s suffix = s.
Proof.
  unfold Select.TrimSuffix.
  destruct (String.length suffix <=? String.length s)%nat eqn:Hle; [|by right].
  destruct (String.eqb_spec
              (substring (String.length s - String.length suffix) (String.length suffix) s)
              suffix) as [Heq|Hne]; [|by right].
  left. exists (substring 0 (String.length s - String.length suffix) s).
  apply Nat.leb_le in Hle.
  pose proof (substring_split s (String.length s - String.length suffix)) as Hsp.
  replace (String.length s - (String.length s - String.length suffix))%nat
    with (String.length suffix) in Hsp by lia.
  rewrite Heq in Hsp. symmetry. apply Hsp. lia.
Qed.

Lemma list_ascii_app (s t : string) :
  list_ascii_of_string (s +:+ t) = list_ascii_of_string s ++ list_ascii_of_string t.
Proof.
  induction s as [|c s IH]; [done|]. rewrite append_cons. cbn. by rewrite IH.
Qed.

Lemma list_ascii_inj (s t : string) :
  list_ascii_of_string s = list_ascii_of_string t -> s = t.
Proof.
  intros Hl. rewrite <- (string_of_list_ascii_of_string s),
    <- (string_of_list_ascii_of_string t). by rewrite Hl.
Qed.

(** A buffer that ends with a space which does not follow a comma: what is
    appended to it is trimmed as if it stood alone. *)
Lemma TrimSuffix_after (b : string) (c : ascii) (t : string) :
  c <> ","%char ->
  Select.TrimSuffix ((b +:+ String c " ") +:+ t) ", "
  = (b +:+ String c " ") +:+ Select.TrimSuffix t ", ".
Proof.
  intros Hc. destruct (TrimSuffix_cases t ", ") as [[t' ->]|Ht].
  - rewrite <- append_assoc. by rewrite !TrimSuffix_suffix.
  - rewrite Ht.
    destruct (TrimSuffix_cases ((b +:+ String c " ") +:+ t) ", ") as [[s' Hs]|Hs]; [|done].
    exfalso. apply (f_equal list_ascii_of_string) in Hs.
    rewrite !list_ascii_app in Hs. cbn in Hs.
    apply (f_equal (@rev ascii)) in Hs. rewrite !rev_app_distr in Hs. cbn in Hs.
    destruct (rev (list_ascii_of_string t)) as [|x [|y r]] eqn:Hr.
    + cbn in Hs. inversion Hs as [[Hc' Hrest]]. by apply Hc.
    + cbn in Hs. inversion Hs.
    + cbn in Hs. inversion Hs as [[Hx Hy Hrest]]. subst x y.
      assert (Hends : t = string_of_list_ascii (rev r) +:+ ", ").
      { apply list_ascii_inj. rewrite list_ascii_app, list_ascii_of_string_of_list_ascii.
        rewrite <- (rev_involutive (list_ascii_of_string t)), Hr. cbn.
        by rewrite <- app_assoc. }
      rewrite Hends, TrimSuffix_suffix in Ht.
      apply (f_equal String.length) in Ht. rewrite length_append in Ht. cbn in Ht. lia.
Qed.

(** ** The column list *)

Lemma textOf_joined {A} (f : A -> string) (sep : string) (l : list A) :
  textOf (fun i x => (match i with O => "" | S _ => sep end) +:+ f x) 0 l
  = joined sep (f <$> l).
Proof.
  destruct l as [|x l]; [done|]. cbn [textOf fmap list_fmap joined]. f_equal.
  generalize 0%nat. induction l as [|y l IH]; intros n; [done|].
  cbn [textOf fmap list_fmap prefixed]. rewrite IH. by rewrite ?append_assoc.
Qed.

Lemma visit_ext {St} (fn1 fn2 : join -> St -> list QueryWithArgs * result St) :
  (forall j s, fn1 j s = fn2 j s) ->
  forall joins s,
    Select._forEachHasOneJoin fn1 joins s = Select._forEachHasOneJoin fn2 joins s.
Proof.
  intros Hfn.
  assert (Hv : forall j s, Select.visitHasOneJoin fn1 j s = Select.visitHasOneJoin fn2 j s).
  { induction j as [j IH] using join_rect'. intros s.
    rewrite !visitHasOneJoin_unfold. destruct (Select.isHasOne j); [|done].
    rewrite Hfn. destruct (fn2 j s) as [cols [s1| |]]; try done.
    assert (Hsubs : forall s,
      Select._forEachHasOneJoin fn1 (JoinModel_GetJoins j) s
      = Select._forEachHasOneJoin fn2 (JoinModel_GetJoins j) s).
    { clear s s1. induction IH as [|x l Hx Hl IHl]; intros s; [done|].
      cbn [Select._forEachHasOneJoin]. rewrite Hx.
      destruct (Select.visitHasOneJoin fn2 x s) as [x' [s2| |]]; try done.
      by rewrite IHl. }
    by rewrite Hsubs. }
  intros joins0; induction joins0 as [|x l IH]; intros s; [done|].
  cbn [Select._forEachHasOneJoin]. rewrite Hv.
  destruct (Select.visitHasOneJoin fn2 x s) as [x' [s2| |]]; try done.
  by rewrite IH.
Qed.

Section ColumnLemmas.
Context `{Collaborators}.
Variable fmter0 : QueryFormatter.

Lemma appendHasOneColumns_text (b : string) (j : join) (qc : SelectQuery) :
  (applyQuery j qc).1 = join_columns j ->
  Select.appendHasOneColumns fmter0 b j qc
  = (join_columns j, (applyQuery j qc).2, Ok (b +:+ hasOneColumnsText fmter0 j)).
Proof.
  intros Ha. unfold Select.appendHasOneColumns, hasOneColumnsText.
  destruct (applyQuery j qc) as [cols qc'] eqn:Hq. cbn in Ha. subst cols.
  assert (Hj : Select.set_join_columns (join_columns j) j = j) by by destruct j.
  rewrite Hj. cbn [snd].
  destruct (join_columns j) as [|c cs] eqn:Hc.
  - f_equal.
    rewrite (forRange_ext _
      (fun i f b => Ok (sepIf i ", " b
         +:+ (join_alias j +:+ "." +:+ SQLName f +:+ " AS "
              +:+ join_alias j +:+ "__" +:+ Name f)))).
    + apply forRange_joined.
    + intros i f b0. unfold Select.appendAliasColumn, Select.appendAlias.
      by rewrite !append_assoc.
  - f_equal. apply nodes_loop.
Qed.

Lemma columns_loop_table (q : SelectQuery) (t : Table) (b : string) :
  table q = Some t ->
  forRange (fun i col b =>
      let b := sepIf i ", " b in
      match Args col with
      | None =>
          match table q with
          | None => Panic "invalid memory address or nil pointer dereference"
          | Some t =>
              match FieldMap t !! Query col with
              | Some field => Ok (b +:+ Alias t +:+ "." +:+ SQLName field)
              | None => sqlfmt.AppendQuery fmter0 col b
              end
          end
      | Some _ => sqlfmt.AppendQuery fmter0 col b
      end) 0 (columns q) b
  = Ok (b +:+ joined ", " (columnText fmter0 t <$> columns q)).
Proof.
  intros Ht. rewrite Ht.
  rewrite (forRange_ext _ (fun i col b => Ok (sepIf i ", " b +:+ columnText fmter0 t col))).
  - apply forRange_joined.
  - intros i col b0. unfold columnText. cbn zeta.
    destruct (Args col); [apply AppendQuery_nodeText|].
    destruct (FieldMap t !! Query col); [by rewrite ?append_assoc|].
    apply AppendQuery_nodeText.
Qed.

Lemma columns_loop_nil (l : list QueryWithArgs) :
  forall i b,
    forRange (fun i col b =>
        let b := sepIf i ", " b in
        match Args col with
        | None => Panic "invalid memory address or nil pointer dereference"
        | Some _ => sqlfmt.AppendQuery fmter0 col b
        end) i l b
    = if forallb isExpr l
      then Ok (b +:+ textOf (fun i x => (match i with O => "" | S _ => ", " end)
                                        +:+ nodeText fmter0 x) i l)
      else Select.nilDeref.
Proof.
  induction l as [|col l IH]; intros i b; cbn [forRange forallb textOf].
  - by rewrite append_nil_r.
  - unfold isExpr at 1. destruct (Args col) eqn:Ha; cbn [andb mbind result_bind]; [|done].
    rewrite AppendQuery_nodeText. cbn [mbind result_bind]. rewrite IH.
    destruct (forallb isExpr l); [|done].
    destruct i; cbn [sepIf]; by rewrite !append_assoc.
Qed.

Lemma baseColumns_text (q : SelectQuery) (b : string) :
  match columns q with
  | _ :: _ =>
      forRange (fun i col b =>
          let b := sepIf i ", " b in
          match Args col with
          | None =>
              match table q with
              | None => Panic "invalid memory address or nil pointer dereference"
              | Some t =>
                  match FieldMap t !! Query col with
                  | Some field => Ok (b +:+ Alias t +:+ "." +:+ SQLName field)
                  | None => sqlfmt.AppendQuery fmter0 col b
                  end
              end
          | Some _ => sqlfmt.AppendQuery fmter0 col b
          end) 0 (columns q) b
  | [] =>
      match table q with
      | Some t =>
          if (10 <? length (Fields t))%nat && IsNopFormatter fmter0 then
            Ok (AppendString (b +:+ Alias t +:+ ".")
                  (pretty (length (Fields t)) +:+ " columns"))
          else Ok (b +:+ appendFieldColumns (Alias t) (Fields t))
      | None => Ok (b +:+ "*")
      end
  end = (c ← baseColumnsText fmter0 q; Ok (b +:+ c)).
Proof.
  unfold baseColumnsText. destruct (columns q) as [|c cs] eqn:Hc.
  - destruct (table q) as [t|]; [|done].
    destruct ((10 <? length (Fields t))%nat && IsNopFormatter fmter0); [|done].
    cbn [mbind result_bind]. unfold AppendString. by rewrite !append_assoc.
  - rewrite <- Hc. destruct (table q) as [t|] eqn:Ht.
    + pose proof (columns_loop_table q t b Ht) as Hl. rewrite Ht in Hl. exact Hl.
    + rewrite columns_loop_nil. destruct (forallb isExpr (columns q)); [|done].
      cbn [mbind result_bind]. unfold nodesText. by rewrite textOf_joined.
Qed.

End ColumnLemmas.

Section AppendColumns.
Context `{Collaborators}.
Variable fmter0 : QueryFormatter.
Hypothesis Hkeep : applyKeepsColumns.

Lemma columns_forEach (b : string) (l : list join) :
  forall t m qc,
    exists m' qc',
      forEach (columnsStep fmter0) l (b +:+ t, (String.length b + m)%nat, qc)
      = Ok (b +:+ columnsFold (hasOneColumnsText fmter0 <$> l) t m, m', qc').
Proof.
  induction l as [|j l IH]; intros t m qc.
  - cbn. eauto.
  - rewrite forEach_cons. cbn [columnsStep fmap list_fmap columnsFold].
    rewrite length_append.
    assert (Hd : bool_decide ((String.length b + String.length t)%nat
                              ≠ (String.length b + m)%nat)
                 = bool_decide (String.length t ≠ m)).
    { apply bool_decide_ext. lia. }
    rewrite Hd. clear Hd.
    destruct (bool_decide (String.length t ≠ m)); cbn [mbind result_bind].
    + rewrite !length_append. cbn [String.length].
      replace (String.length b + String.length t + 2)%nat
        with (String.length b + (String.length t + 2))%nat by lia.
      rewrite !append_assoc. apply IH.
    + rewrite append_assoc. apply IH.
Qed.

Lemma appendColumns_text (q : SelectQuery) (b0 : string) (c : ascii) :
  c <> ","%char ->
  Select.appendColumns fmter0 q (b0 +:+ String c " ")
  = (t ← columnsText fmter0 q; Ok ((b0 +:+ String c " ") +:+ t), q).
Proof.
  intros Hc. unfold Select.appendColumns. rewrite baseColumns_text.
  unfold columnsText.
  destruct (baseColumnsText fmter0 q) as [c0| |]; cbn [mbind result_bind]; [|done|done].
  unfold Select.forEachHasOneJoin, relationJoins.
  destruct (tableModel_ q) as [tm|] eqn:Htm.
  - rewrite (visit_ext _ (fun j s => (join_columns j, columnsStep fmter0 j s))).
    + rewrite forEachHasOneJoin_pure. rewrite set_GetJoins_same by done.
      pose proof (columns_forEach (b0 +:+ String c " ") (hasOneJoins (GetJoins tm)) c0 0 q)
        as (m' & qc' & Hfe).
      rewrite Nat.add_0_r in Hfe. rewrite Hfe. cbn [mbind result_bind fst].
      by rewrite TrimSuffix_after.
    + intros j [[b start] qc]. unfold columnsStep.
      destruct (bool_decide (String.length b ≠ start));
        rewrite appendHasOneColumns_text by apply Hkeep; done.
  - cbn [mbind result_bind fst columnsFold fmap list_fmap]. by rewrite TrimSuffix_after.
Qed.

End AppendColumns.

(** ** The whole query *)

Section AppendQuery.
Context `{Collaborators}.
Variable fmter0 : QueryFormatter.
Hypothesis Hkeep : applyKeepsColumns.

Lemma queryText_unfold (q : SelectQuery) (count : bool) :
  queryText fmter0 q count
  = match err q with
    | Some e => Err e
    | None =>
        P ← selectText fmter0 q count;
        C ← (if count && negb (Select.cteCount q count) then Ok "count(*)"
             else columnsText fmter0 q);
        R ← fromToHavingText fmter0 q;
        U ← match union_ q with
            | [] => Ok ""
            | _ :: _ =>
                u ← unionsText (fun query => queryText fmter0 query false) (union_ q);
                Ok (")" +:+ u)
            end;
        Ok (P +:+ C +:+ R
            +:+ (if negb count then orderToForText fmter0 q else "")
            +:+ U
            +:+ (if Select.cteCount q count
                 then ") SELECT count(*) FROM _count_wrapper" else ""))
    end.
Proof. by destruct q. Qed.

Lemma selectText_ends (q : SelectQuery) (count : bool) (P : string) :
  selectText fmter0 q count = Ok P ->
  exists p c, P = p +:+ String c " " /\ c <> ","%char.
Proof.
  unfold selectText.
  destruct (appendWith fmter0 q) as [t| |]; cbn [mbind result_bind]; [|done|done].
  intros [= <-]. unfold distinctText.
  set (pre := (if Select.cteCount q count then "WITH _count_wrapper AS (" else "")).
  set (par := (if (0 <? length (union_ q))%nat then "(" else "")).
  destruct (distinctOn q) as [[|x l]|].
  - exists (pre +:+ par +:+ t +:+ "SELECT " +:+ "DISTINC"), "T"%char.
    split; [rewrite !append_assoc; reflexivity|done].
  - exists (pre +:+ par +:+ t +:+ "SELECT " +:+ "DISTINCT ON ("
            +:+ nodesText fmter0 ", " (x :: l)), ")"%char.
    split; [rewrite !append_assoc; reflexivity|done].
  - exists (pre +:+ par +:+ t +:+ "SELEC"), "T"%char.
    split; [rewrite !append_assoc, append_nil_r; reflexivity|done].
Qed.

Lemma appendColumnsToFor_text (q : SelectQuery) (b P : string) (count : bool) :
  selectText fmter0 q count = Ok P ->
  Select.appendColumnsToFor fmter0 q (b +:+ P) count
  = (C ← (if count && negb (Select.cteCount q count) then Ok "count(*)"
          else columnsText fmter0 q);
     R ← fromToHavingText fmter0 q;
     Ok (b +:+ P +:+ C +:+ R +:+ (if negb count then orderToForText fmter0 q else "")),
     q).
Proof.
  intros HP. destruct (selectText_ends q count P HP) as (p & c & -> & Hc).
  unfold Select.appendColumnsToFor.
  destruct (count && negb (Select.cteCount q count)) eqn:Hcount.
  - cbn [mbind result_bind]. rewrite appendFromToHaving_text.
    destruct (fromToHavingText fmter0 q) as [R| |]; cbn [mbind result_bind]; [|done|done].
    apply andb_prop in Hcount as [-> _]. cbn [negb].
    by rewrite !append_nil_r, !append_assoc.
  - rewrite <- append_assoc. rewrite appendColumns_text by done.
    destruct (columnsText fmter0 q) as [C| |]; cbn [mbind result_bind]; [|done|done].
    rewrite appendFromToHaving_text.
    destruct (fromToHavingText fmter0 q) as [R| |]; cbn [mbind result_bind]; [|done|done].
    destruct (negb count).
    + rewrite appendOrderToFor_text. by rewrite !append_assoc.
    + by rewrite !append_nil_r, !append_assoc.
Qed.

Lemma appendUnions_text (render : SelectQuery -> string -> result string * SelectQuery)
    (text : SelectQuery -> result string) (us : list (string * SelectQuery)) :
  Forall (fun u => forall b, render u.2 b = (t ← text u.2; Ok (b +:+ t), u.2)) us ->
  forall b,
    Select.appendUnions render us b = (t ← unionsText text us; Ok (b +:+ t), us).
Proof.
  induction 1 as [|[expr query] us Hq Hus IH]; intros b.
  - cbn. by rewrite append_nil_r.
  - cbn [Select.appendUnions unionsText]. cbn [snd] in Hq. rewrite Hq.
    destruct (text query) as [x| |]; cbn [mbind result_bind]; [|done|done].
    rewrite IH.
    destruct (unionsText text us) as [rest| |]; cbn [mbind result_bind]; [|done|done].
    by rewrite !append_assoc.
Qed.

Lemma set_union_same (q : SelectQuery) : set_union (union_ q) q = q.
Proof. by destruct q. Qed.

Lemma appendQuery_text (q : SelectQuery) :
  forall b count,
    Select.appendQuery fmter0 q b count
    = (t ← queryText fmter0 q count; Ok (b +:+ t), q).
Proof.
  induction q as [q IH] using SelectQuery_rect'. intros b count.
  rewrite appendQuery_unfold, queryText_unfold.
  destruct (err q) as [e|]; [done|].
  rewrite appendSelect_text.
  destruct (selectText fmter0 q count) as [P| |] eqn:HP; cbn [mbind result_bind];
    [|done|done].
  rewrite (appendColumnsToFor_text q b P count HP).
  destruct (if count && negb (Select.cteCount q count) then Ok "count(*)"
            else columnsText fmter0 q) as [C| |]; cbn [mbind result_bind]; [|done|done].
  destruct (fromToHavingText fmter0 q) as [R| |]; cbn [mbind result_bind]; [|done|done].
  destruct (union_ q) as [|u us] eqn:Hu.
  - cbn [mbind result_bind]. unfold Select.closeCount.
    destruct (Select.cteCount q count); by rewrite ?append_nil_r, ?append_assoc.
  - rewrite <- Hu in *.
    rewrite (appendUnions_text _ (fun query => queryText fmter0 query false)).
    + destruct (unionsText _ (union_ q)) as [u'| |]; cbn [mbind result_bind];
        rewrite set_union_same; [|done|done].
      unfold Select.closeCount.
      destruct (Select.cteCount q count); by rewrite ?append_nil_r, ?append_assoc.
    + eapply Forall_impl; [exact IH|]. intros [expr query] Hq b'. apply Hq.
Qed.

End AppendQuery.

Section RenderTheorems.
Context `{Collaborators}.




End RenderTheorems.




Example groupedT_count :
  (Select.appendQuery (fmter pgDB) groupedT "" true).1
  = Ok "WITH _count_wrapper AS (SELECT t.id, t.name FROM t WHERE (id = 5) GROUP BY name) SELECT count(*) FROM _count_wrapper".
Proof. vm_compute. reflexivity. Qed.

(** ** The clauses of a SELECT, in order *)

Lemma unionsText_ext (f g : SelectQuery -> result string) (us : list (string * SelectQuery)) :
  (forall q, f q = g q) -> unionsText f us = unionsText g us.
Proof.
  intros Hfg. induction us as [|[expr query] us IH]; [done|].
  cbn [unionsText]. by rewrite Hfg, IH.
Qed.

Section RenderClauses.
Context `{Collaborators}.


End RenderClauses.


(** ** The column list *)

Lemma TrimSuffix_quote (s : string) :
  Select.TrimSuffix (s +:+ "'") ", " = s +:+ "'".
Proof.
  destruct (TrimSuffix_cases (s +:+ "'") ", ") as [[s' Hs]|Hs]; [|done].
  apply (f_equal list_ascii_of_string) in Hs. rewrite !list_ascii_app in Hs.
  apply (f_equal (@last ascii)) in Hs. cbn [list_ascii_of_string] in Hs.
  change [","%char; " "%char] with ([","%char] ++ [" "%char]) in Hs.
  rewrite app_assoc, !last_snoc in Hs. discriminate Hs.
Qed.

Section Columns.
Context `{Collaborators}.

Lemma forEachHasOneJoin_none {St} (fn : join -> St -> list QueryWithArgs * result St)
    (q : SelectQuery) (s : St) :
  (forall tm, tableModel_ q = Some tm -> GetJoins tm = []) ->
  Select.forEachHasOneJoin fn q s = (Ok s, q).
Proof.
  intros Hj. unfold Select.forEachHasOneJoin.
  destruct (tableModel_ q) as [tm|] eqn:Htm; [|done].
  rewrite (Hj tm eq_refl). cbn. f_equal.
  rewrite <- (Hj tm eq_refl). by apply set_GetJoins_same.
Qed.

(** X12: placeholder mode is not literal mode with the values left out.
    For a query without columns of its own and without relation joins,
    literal mode renders every field of the model's table; placeholder
    mode renders the same when the table has at most ten fields, and the
    abbreviation [alias.'N columns'] when it has more. *)
Theorem placeholder_abbreviates_columns (q : SelectQuery) (t : Table)
    (quote : value -> string) (b : string) :
  columns q = [] -> table q = Some t ->
  (forall tm, tableModel_ q = Some tm -> GetJoins tm = []) ->
  (Select.appendColumns (LiteralFormatter quote) q b).1
  = Ok (Select.TrimSuffix (b +:+ appendFieldColumns (Alias t) (Fields t)) ", ")
  /\ (Select.appendColumns NopFormatter q b).1
     = if (10 <? length (Fields t))%nat
       then Ok (b +:+ Alias t +:+ ".'" +:+ pretty (length (Fields t)) +:+ " columns'")
       else (Select.appendColumns (LiteralFormatter quote) q b).1.
Proof.
  intros Hc Ht Hj. unfold Select.appendColumns. rewrite Hc, Ht.
  cbn [IsNopFormatter]. rewrite andb_false_r, andb_true_r.
  rewrite !forEachHasOneJoin_none by done. cbn [fst mbind result_bind].
  split; [done|].
  destruct (10 <? length (Fields t))%nat.
  - rewrite forEachHasOneJoin_none by done. cbn [fst mbind result_bind].
    unfold AppendString. f_equal.
    rewrite <- !append_assoc. rewrite TrimSuffix_quote.
    by rewrite ?append_assoc.
  - rewrite forEachHasOneJoin_none by done. done.
Qed.


End Columns.

Lemma placeholder_abbreviates_columns_witness :
  (columns selectWide = [] /\ table selectWide = Some wideT
   /\ (forall tm, tableModel_ selectWide = Some tm -> GetJoins tm = []))
  /\ (Select.appendColumns NopFormatter selectWide "SELECT ").1
     = Ok "SELECT w.'11 columns'".
Proof.
  assert (Hj : forall tm, tableModel_ selectWide = Some tm -> GetJoins tm = []).
  { intros tm Htm. vm_compute in Htm. injection Htm as <-. reflexivity. }
  split; [split; [reflexivity|split; [reflexivity|exact Hj]]|].
  exact (proj2 (placeholder_abbreviates_columns selectWide wideT sqlQuote "SELECT "
                  eq_refl eq_refl Hj)).
Defined.


(** ** Joins and their conditions *)

Lemma textOf_app {A} (g : nat -> A -> string) (l1 l2 : list A) :
  forall i, textOf g i (l1 ++ l2) = textOf g i l1 +:+ textOf g (i + length l1) l2.
Proof.
  induction l1 as [|x l1 IH]; intros i; cbn [textOf app length].
  - by rewrite Nat.add_0_r.
  - rewrite IH, append_assoc. do 3 f_equal. lia.
Qed.

Section JoinOn.
Context `{Collaborators}.

(** X14: [JoinOn] and [JoinOnOr] work on the last join only.  Without a
    join the call stores the error "query has no joins" in place of any
    error stored before, changes nothing else, and every rendering returns
    that error.  With joins, the condition goes to the end of the
    conditions of the last join, and nothing else changes; that join then
    renders as before, followed by [ ON ] when the condition is its first
    and by the condition's own separator when it is not, and by the
    condition in parentheses: the separator of a first condition is never
    written. *)
Theorem joinOn_last_join (fmter0 : QueryFormatter) (q : SelectQuery)
    (cond : string) (args : list value) (sep : string) (b : string) :
  match last (joins q) with
  | None =>
      Select.joinOn cond args sep q = updBase (set_err (Some errNoJoins)) q
      /\ forall count,
           Select.appendQuery fmter0 (Select.joinOn cond args sep q) b count
           = (Err errNoJoins, Select.joinOn cond args sep q)
  | Some j =>
      let j' := {| join_ := join_ j; on := on j ++ [SafeQueryWithSep cond args sep] |} in
      Select.joinOn cond args sep q
      = set_joins (take (length (joins q) - 1) (joins q) ++ [j']) q
      /\ Select.joinQuery_AppendQuery fmter0 j' b
         = (t ← Select.joinQuery_AppendQuery fmter0 j b;
            Ok (t +:+ (match on j with [] => " ON " | _ :: _ => sep end)
                  +:+ "(" +:+ formatQuery fmter0 cond args +:+ ")"))
  end.
Proof.
  destruct (last (joins q)) as [j|] eqn:Hl.
  - apply last_Some in Hl as [js Hjs]. cbn zeta. split.
    + unfold Select.joinOn. rewrite Hjs.
      destruct (js ++ [j]) as [|j0 js0] eqn:Hd; [by destruct js|]. rewrite <- Hd.
      f_equal. rewrite length_app. cbn [length].
      replace (length js + 1 - 1)%nat with (length js + 0)%nat by lia.
      rewrite alter_app_r. rewrite Nat.add_0_r, take_app_length. done.
    + rewrite !joinQuery_AppendQuery_text. cbn [mbind result_bind]. f_equal.
      unfold joinQueryText. cbn [join_ on].
      destruct (on j) as [|c cs] eqn:Hon.
      * cbn. by rewrite ?append_nil_r, ?append_assoc.
      * destruct ((c :: cs) ++ [SafeQueryWithSep cond args sep]) as [|c0 cs0] eqn:Hd;
          [done|]. rewrite <- Hd. unfold onText. rewrite textOf_app.
        cbn [textOf length Nat.add Sep SafeQueryWithSep nodeText QueryWithArgs_of
             SafeQuery Args Query].
        by rewrite ?append_nil_r, ?append_assoc.
  - apply last_None in Hl. unfold Select.joinOn. rewrite Hl. split; [done|].
    intros count. by rewrite appendQuery_unfold.
Qed.

End JoinOn.

(** ** The columns of a flattened relation *)

Section HasOneColumns.
Context `{Collaborators}.


End HasOneColumns.

(** ** Builder calls *)

(** X16: a builder call with several names is the sequence of the calls with
    one name each: [Column], [Table], [Group] and [Order] add their names as
    identifiers at the end of their own list, in the order given, and
    change nothing else; a call with the names [xs ++ ys] is the call with
    [xs] followed by the call with [ys], and a call without names changes
    nothing. *)
Theorem variadic_builder_calls (q : SelectQuery) (xs ys : list string) :
  (Select.Column xs q
   = updBase (fun b => set_columns (columns b ++ (UnsafeIdent <$> xs)) b) q
   /\ Select.Column (xs ++ ys) q = Select.Column ys (Select.Column xs q))
  /\ (Select.Table xs q
      = updBase (fun b => set_tables (tables b ++ (UnsafeIdent <$> xs)) b) q
      /\ Select.Table (xs ++ ys) q = Select.Table ys (Select.Table xs q))
  /\ (Select.Group xs q = set_group (group q ++ (UnsafeIdent <$> xs)) q
      /\ Select.Group (xs ++ ys) q = Select.Group ys (Select.Group xs q))
  /\ (Select.Order xs q = set_order (order q ++ (UnsafeIdent <$> xs)) q
      /\ Select.Order (xs ++ ys) q = Select.Order ys (Select.Order xs q))
  /\ Select.Column [] q = q /\ Select.Table [] q = q
  /\ Select.Group [] q = q /\ Select.Order [] q = q.
Proof.
  repeat split;
    try (unfold Select.Column, Select.Table, Select.Group, Select.Order; apply foldl_app);
    try done.
  - unfold Select.Column. revert q. induction xs as [|x xs IH]; intros q.
    + cbn. destruct q as [[[]]]. unfold updBase, set_columns, set_tables, set_group, set_order, Select.addColumn, Select.addTable; cbn. by rewrite app_nil_r.
    + cbn [foldl]. rewrite IH. destruct q as [[[]]]. unfold updBase, set_columns, set_tables, set_group, set_order, Select.addColumn, Select.addTable; cbn. by rewrite <- app_assoc.
  - unfold Select.Table. revert q. induction xs as [|x xs IH]; intros q.
    + cbn. destruct q as [[[]]]. unfold updBase, set_columns, set_tables, set_group, set_order, Select.addColumn, Select.addTable; cbn. by rewrite app_nil_r.
    + cbn [foldl]. rewrite IH. destruct q as [[[]]]. unfold updBase, set_columns, set_tables, set_group, set_order, Select.addColumn, Select.addTable; cbn. by rewrite <- app_assoc.
  - unfold Select.Group. revert q. induction xs as [|x xs IH]; intros q.
    + cbn. destruct q. unfold updBase, set_columns, set_tables, set_group, set_order, Select.addColumn, Select.addTable; cbn. by rewrite app_nil_r.
    + cbn [foldl]. rewrite IH. destruct q. unfold updBase, set_columns, set_tables, set_group, set_order, Select.addColumn, Select.addTable; cbn. by rewrite <- app_assoc.
  - unfold Select.Order. revert q. induction xs as [|x xs IH]; intros q.
    + cbn. destruct q. unfold updBase, set_columns, set_tables, set_group, set_order, Select.addColumn, Select.addTable; cbn. by rewrite app_nil_r.
    + cbn [foldl]. rewrite IH. destruct q. unfold updBase, set_columns, set_tables, set_group, set_order, Select.addColumn, Select.addTable; cbn. by rewrite <- app_assoc.
Qed.

(** X17: [Limit] and [Offset] keep the low 32 bits of their argument.  The
    number stored is always a 32-bit integer that differs from the argument
    by a multiple of 2^32; it is the argument exactly when that fits in 32
    bits, and arguments that differ by a multiple of 2^32 give the same
    query (so [Limit(1 << 32)] sets no limit, and [Limit(1 << 31)] a
    negative one).  The last call wins. *)
Theorem Limit_keeps_32_bits (q : SelectQuery) (n m : Z) :
  (- 2 ^ 31 <= limit (Select.Limit n q) < 2 ^ 31
   /\ (limit (Select.Limit n q) = n <-> - 2 ^ 31 <= n < 2 ^ 31)
   /\ Select.Limit (n + m * 2 ^ 32) q = Select.Limit n q
   /\ Select.Limit m (Select.Limit n q) = Select.Limit m q)
  /\ (- 2 ^ 31 <= offset (Select.Offset n q) < 2 ^ 31
      /\ (offset (Select.Offset n q) = n <-> - 2 ^ 31 <= n < 2 ^ 31)
      /\ Select.Offset (n + m * 2 ^ 32) q = Select.Offset n q
      /\ Select.Offset m (Select.Offset n q) = Select.Offset m q).
Proof.
  assert (Hr : - 2 ^ 31 <= int32 n < 2 ^ 31).
  { unfold int32. pose proof (Z.mod_pos_bound (n + 2 ^ 31) (2 ^ 32)). lia. }
  assert (Hi : int32 n = n <-> - 2 ^ 31 <= n < 2 ^ 31).
  { split; [intros <-; exact Hr|]. intros Hn. unfold int32.
    rewrite Z.mod_small by lia. lia. }
  assert (Hw : int32 (n + m * 2 ^ 32) = int32 n).
  { unfold int32. f_equal.
    replace (n + m * 2 ^ 32 + 2 ^ 31) with (n + 2 ^ 31 + m * 2 ^ 32) by lia.
    apply Z_mod_plus_full. }
  unfold Select.Limit, Select.Offset. cbn [limit offset set_limit set_offset].
  rewrite Hw.
  split; (split; [exact Hr|split; [exact Hi|split; [reflexivity|by destruct q]]]).
Qed.

(** ** Typed rows, row by row *)

Lemma forRange_iprefixed {A} (g : nat -> A -> string) (sep : string) (l : list A) :
  forall i b,
    forRange (fun i x b => Ok (sepIf i sep b +:+ g i x)) (S i) l b
    = Ok (b +:+ prefixed sep (imap (fun k => g (S i + k)%nat) l)).
Proof.
  induction l as [|x l IH]; intros i b; cbn [forRange imap prefixed].
  - by rewrite append_nil_r.
  - cbn [sepIf mbind result_bind]. rewrite IH. rewrite Nat.add_0_r.
    rewrite !append_assoc. do 5 f_equal. apply imap_ext. intros k y _. cbn.
    f_equal. lia.
Qed.

Lemma forRange_ijoined {A} (g : nat -> A -> string) (sep : string) (l : list A) (b : string) :
  forRange (fun i x b => Ok (sepIf i sep b +:+ g i x)) 0 l b
  = Ok (b +:+ joined sep (imap g l)).
Proof.
  destruct l as [|x l]; cbn [forRange imap joined].
  - by rewrite append_nil_r.
  - cbn [sepIf mbind result_bind]. rewrite forRange_iprefixed.
    by rewrite append_assoc.
Qed.

Section TypedRows.
Context `{Collaborators}.

Lemma appendValues_elements (fmter0 : QueryFormatter) (q : Values.ValuesQuery)
    (b : string) (fields : list Field) (s : strct) :
  Values.appendValues fmter0 q b fields s
  = Ok (b +:+ joined ", " (elementText fmter0 q s <$> fields)).
Proof.
  unfold Values.appendValues.
  rewrite (forRange_ext _ (fun i f b => Ok (sepIf i ", " b +:+ elementText fmter0 q s f))).
  - apply forRange_joined.
  - intros i f b0. unfold elementText.
    destruct (Values.modelValues q !! Name f) as [app|].
    + apply AppendQuery_nodeText.
    + unfold Values.AppendValue, Append.
      destruct fmter0; cbn [IsNopFormatter argText]; by rewrite !append_assoc.
Qed.

(** X18: the text of a typed values source.  For a query without a stored
    error whose fields are known, a struct renders as one row, a slice as
    one row per element in order, the rows separated by [), (]: the
    dialect's [ROW(] opens the first row only.  With [WithOrder] every row
    ends with its index in the slice (0 for a struct).  An empty slice is
    no error: it renders as [VALUES ()].  Any other table model gives the
    error "Values does not support".  The query is left as it is. *)
Theorem typed_rows_text (fmter0 : QueryFormatter) (q : Values.ValuesQuery) (b : string)
    (tm : tableModel) (fields : list Field) :
  err (Values.baseQuery_of q) = None ->
  model_ (Values.baseQuery_of q) = Some (TableModel tm) ->
  getFields (Values.baseQuery_of q) = Ok fields ->
  Values.AppendQuery fmter0 q b
  = (match tm_data tm with
     | structTableModel s =>
         Ok (b +:+ "VALUES " +:+ rowOpen (db (Values.baseQuery_of q))
               +:+ typedRowText fmter0 q fields 0 s +:+ ")")
     | sliceTableModel rows =>
         Ok (b +:+ "VALUES " +:+ rowOpen (db (Values.baseQuery_of q))
               +:+ joined "), (" (imap (typedRowText fmter0 q fields) rows) +:+ ")")
     | otherTableModel _ => Err (errValuesUnsupported (Values.modelType (TableModel tm)))
     end, q).
Proof.
  intros He Hm Hf. unfold Values.AppendQuery. rewrite He, Hm, Hf.
  cbn [mbind result_bind]. f_equal.
  unfold Values.appendQuery, tableModel_, Select.formatterWithModel. rewrite Hm.
  assert (Ho : (if hasValuesRow (db (Values.baseQuery_of q))
                then (b +:+ "VALUES ") +:+ "ROW(" else (b +:+ "VALUES ") +:+ "(")
               = (b +:+ "VALUES ") +:+ rowOpen (db (Values.baseQuery_of q))).
  { unfold rowOpen. by destruct (hasValuesRow (db (Values.baseQuery_of q))). }
  rewrite Ho. clear Ho.
  destruct tm as [[s|rows|name] js]; cbn [tm_data from_option].
  - rewrite appendValues_elements. cbn [mbind result_bind].
    unfold typedRowText, Select.AppendInt.
    destruct (Values.withOrder q); by rewrite ?append_nil_r, ?append_assoc.
  - rewrite (forRange_ext _
      (fun i el b => Ok (sepIf i "), (" b +:+ typedRowText fmter0 q fields i el))).
    + rewrite forRange_ijoined. cbn [mbind result_bind]. by rewrite ?append_assoc.
    + intros i el b0. rewrite appendValues_elements. cbn [mbind result_bind].
      unfold typedRowText, Select.AppendInt.
      destruct (Values.withOrder q); by rewrite ?append_nil_r, ?append_assoc.
  - done.
Qed.

End TypedRows.

Lemma typed_rows_text_witness :
  (err (Values.baseQuery_of (valuesOf entityTyped [])) = None
   /\ model_ (Values.baseQuery_of (valuesOf entityTyped []))
      = Some (TableModel {| tm_data := sliceTableModel []; GetJoins := [] |})
   /\ getFields (Values.baseQuery_of (valuesOf entityTyped [])) = Ok (Fields entityTyped))
  /\ Values.AppendQuery NopFormatter (valuesOf entityTyped []) ""
     = (Ok "VALUES ()", valuesOf entityTyped []).
Proof.
  split; [split; [reflexivity|split; reflexivity]|].
  exact (typed_rows_text NopFormatter (valuesOf entityTyped []) ""
           {| tm_data := sliceTableModel []; GetJoins := [] |} (Fields entityTyped)
           eq_refl eq_refl eq_refl).
Defined.

(** ** The key list of a dynamic-row source *)

Lemma initKeys_again (m : MapSlice.mapSliceModel) :
  MapSlice.initKeys (MapSlice.initKeys m).2 = MapSlice.initKeys m.
Proof.
  unfold MapSlice.initKeys. destruct (MapSlice.keys m) as [ks|] eqn:Hk.
  - cbn. by rewrite Hk.
  - destruct (MapSlice.slice m) as [|first rest] eqn:Hs; cbn; [|done].
    by rewrite Hk, Hs.
Qed.

Lemma initKeys_state (m : MapSlice.mapSliceModel) :
  (MapSlice.initKeys m).2 = m
  \/ (exists first rest,
        MapSlice.keys m = None /\ MapSlice.slice m = first :: rest
        /\ (MapSlice.initKeys m).2
           = MapSlice.setKeys (MapSlice.sortStrings (MapSlice.rangeKeys first)) m).
Proof.
  unfold MapSlice.initKeys. destruct (MapSlice.keys m) as [ks|] eqn:Hk; [by left|].
  destruct (MapSlice.slice m) as [|first rest] eqn:Hs; [by left|].
  right. by exists first, rest.
Qed.

Lemma appendValues_state (m : MapSlice.mapSliceModel) (fmter0 : QueryFormatter) (b : string) :
  (MapSlice.appendValues m fmter0 b).2 = (MapSlice.initKeys m).2
  /\ (MapSlice.appendColumns m fmter0 b).2 = (MapSlice.initKeys m).2
  /\ MapSlice.appendValues (MapSlice.initKeys m).2 fmter0 b
     = MapSlice.appendValues m fmter0 b
  /\ MapSlice.appendColumns (MapSlice.initKeys m).2 fmter0 b
     = MapSlice.appendColumns m fmter0 b.
Proof.
  unfold MapSlice.appendValues, MapSlice.appendColumns.
  rewrite (initKeys_again m).
  destruct (MapSlice.initKeys m) as [[e|] m']; cbn [fst snd]; [done|].
  by destruct (IsNopFormatter fmter0).
Qed.

(** X19: once the key list of a dynamic-row source is fixed, it is used as
    it is.  The columns are these keys and the rows are looked up by them,
    whatever the slice holds at the time, also when its first row has
    other keys; rendering then never fails, and an empty slice renders as
    [VALUES ()] in literal mode.  The model is left as it is. *)
Theorem cached_keys_are_kept (m : MapSlice.mapSliceModel) (ks : list string)
    (fmter0 : QueryFormatter) (quote : value -> string) (b : string) :
  MapSlice.keys m = Some ks ->
  MapSlice.initKeys m = (None, m)
  /\ MapSlice.appendColumns m fmter0 b = (Ok (b +:+ joined ", " ks), m)
  /\ MapSlice.appendValues m (LiteralFormatter quote) b
     = (Ok (b +:+ "VALUES " +:+ rowOpen (MapSlice.db m)
              +:+ joined ("), " +:+ rowOpen (MapSlice.db m))
                    (rowText quote ks <$> MapSlice.slice m)
              +:+ ")"), m)
  /\ MapSlice.appendValues m NopFormatter b
     = (Ok (b +:+ "VALUES " +:+ rowOpen (MapSlice.db m)
              +:+ joined ", " ((fun _ => "?") <$> ks)), m).
Proof.
  intros Hk.
  assert (Hi : MapSlice.initKeys m = (None, m)).
  { unfold MapSlice.initKeys. by rewrite Hk. }
  assert (Hl : MapSlice.keyList m = ks).
  { unfold MapSlice.keyList. by rewrite Hk. }
  split; [exact Hi|].
  unfold MapSlice.appendColumns, MapSlice.appendValues. rewrite Hi, Hl.
  cbn [IsNopFormatter]. split; [|split].
  - f_equal. unfold AppendIdent.
    rewrite (forRange_joined (fun k => k) ", "). by rewrite list_fmap_id.
  - f_equal.
    rewrite (forRange_ext _
      (fun i el b => Ok (sepIf i ("), " +:+ rowOpen (MapSlice.db m)) b
                         +:+ rowText quote ks el))).
    + rewrite forRange_joined. cbn [mbind result_bind].
      unfold MapSlice.openRow, rowOpen.
      destruct (hasValuesRow (MapSlice.db m)); by rewrite !append_assoc.
    + intros i el b0. unfold Append.
      rewrite (forRange_joined
                 (fun k => argText (LiteralFormatter quote) (MapSlice.index el k))).
      unfold rowText, MapSlice.openRow, rowOpen. cbn [argText].
      destruct i; cbn [sepIf]; [done|].
      destruct (hasValuesRow (MapSlice.db m)); by rewrite !append_assoc.
  - f_equal. rewrite (forRange_joined (fun _ => "?")).
    unfold MapSlice.openRow, rowOpen.
    destruct (hasValuesRow (MapSlice.db m)); by rewrite !append_assoc.
Qed.

Lemma cached_keys_are_kept_witness :
  MapSlice.keys (MapSlice.setKeys ["a"; "b"] (MapSlice.newMapSliceModel pgDB []))
  = Some ["a"; "b"]
  /\ MapSlice.appendValues
       (MapSlice.setKeys ["a"; "b"] (MapSlice.newMapSliceModel pgDB []))
       (LiteralFormatter sqlQuote) ""
     = (Ok "VALUES ()", MapSlice.setKeys ["a"; "b"] (MapSlice.newMapSliceModel pgDB [])).
Proof.
  split; [reflexivity|].
  exact (proj1 (proj2 (proj2
    (cached_keys_are_kept (MapSlice.setKeys ["a"; "b"] (MapSlice.newMapSliceModel pgDB []))
       ["a"; "b"] NopFormatter sqlQuote "" eq_refl)))).
Defined.

(** ** Rendering a values query again *)

Section ValuesAgain.
Context `{Collaborators}.

Lemma set_model_same (q : Values.ValuesQuery) :
  Values.updBase (set_model (model_ (Values.baseQuery_of q))) q = q.
Proof. by destruct q as [[]]. Qed.

Lemma set_model_twice (x y : option model) (q : Values.ValuesQuery) :
  Values.updBase (set_model x) (Values.updBase (set_model y) q)
  = Values.updBase (set_model x) q.
Proof. by destruct q as [[]]. Qed.

(** X20: rendering a values query changes at most the key list of its
    dynamic-row model, which it fixes to the sorted keys of the first row
    if it was not fixed and the slice is not empty; rendering the columns
    leaves the same state as rendering the values.  On the query so left,
    rendering columns or values, in any mode and into any buffer, gives
    what it gives on the query before, and leaves the query as it is. *)
Theorem Values_render_again (fmter0 fmter1 : QueryFormatter) (q : Values.ValuesQuery)
    (b b' : string) :
  let q' := (Values.AppendQuery fmter0 q b).2 in
  (q' = q
   \/ exists m first rest,
        model_ (Values.baseQuery_of q) = Some (MapSliceModel m)
        /\ MapSlice.keys m = None /\ MapSlice.slice m = first :: rest
        /\ q' = Values.updBase
                  (set_model (Some (MapSliceModel
                     (MapSlice.setKeys (MapSlice.sortStrings (MapSlice.rangeKeys first)) m))))
                  q)
  /\ (Values.AppendColumns fmter0 q b).2 = q'
  /\ Values.AppendQuery fmter1 q' b' = ((Values.AppendQuery fmter1 q b').1, q')
  /\ Values.AppendColumns fmter1 q' b' = ((Values.AppendColumns fmter1 q b').1, q').
Proof.
  cbn zeta. unfold Values.AppendQuery, Values.AppendColumns, Select.formatterWithModel.
  destruct (err (Values.baseQuery_of q)) as [e|] eqn:He.
  { cbn [fst snd]. rewrite He. auto. }
  destruct (model_ (Values.baseQuery_of q)) as [[tm|m|name]|] eqn:Hm; cbn [fst snd];
    rewrite ?He, ?Hm; auto.
  pose proof (appendValues_state m fmter0 b) as (Hv & Hc & _ & _).
  destruct (MapSlice.appendValues m fmter0 b) as [r m1] eqn:Hav.
  destruct (MapSlice.appendColumns m fmter0 b) as [rc mc] eqn:Hac.
  cbn [fst snd] in *. subst m1 mc.
  cbn [err model_ Values.updBase set_model Values.baseQuery_of]. rewrite He.
  pose proof (appendValues_state m fmter1 b') as (Hv1 & Hc1 & Hv2 & Hc2).
  rewrite Hv2, Hc2.
  destruct (MapSlice.appendValues m fmter1 b') as [r1 m1] eqn:Hav1.
  destruct (MapSlice.appendColumns m fmter1 b') as [rc1 mc1] eqn:Hac1.
  cbn [fst snd] in *. subst m1 mc1.
  rewrite !set_model_twice.
  split; [|done].
  destruct (initKeys_state m) as [Hi|(first & rest & Hk & Hs & Hi)]; rewrite Hi.
  - left. rewrite <- Hm. apply set_model_same.
  - right. by exists m, first, rest.
Qed.

(** X21: [AppendArg] expands the named reference [Columns] and no other.
    For another name it reports that nothing was written and leaves buffer
    and query as they are.  For [Columns] it always reports the reference
    handled: when the columns render, it returns their text; when they
    fail, it returns the buffer unchanged and no error, and stores the
    error in the query, so that every later rendering of the query returns
    that error. *)
Theorem AppendArg_columns (fmter0 : QueryFormatter) (q : Values.ValuesQuery)
    (b name : string) :
  (name <> "Columns" -> Values.AppendArg fmter0 q b name = (Ok (b, false), q))
  /\ (forall bb, (Values.AppendColumns fmter0 q b).1 = Ok bb ->
        Values.AppendArg fmter0 q b "Columns"
        = (Ok (bb, true), (Values.AppendColumns fmter0 q b).2))
  /\ (forall e, (Values.AppendColumns fmter0 q b).1 = Err e ->
        exists q',
          Values.AppendArg fmter0 q b "Columns" = (Ok (b, true), q')
          /\ err (Values.baseQuery_of q') = Some e
          /\ forall fmter1 b',
               Values.AppendQuery fmter1 q' b' = (Err e, q')
               /\ Values.AppendColumns fmter1 q' b' = (Err e, q')).
Proof.
  split; [|split].
  - intros Hn. unfold Values.AppendArg.
    destruct (String.eqb name "Columns") eqn:Heq; [|done].
    by apply String.eqb_eq in Heq.
  - intros bb Hbb. unfold Values.AppendArg. cbn [String.eqb Ascii.eqb Bool.eqb andb].
    destruct (Values.AppendColumns fmter0 q b) as [r q1]. cbn in Hbb. by subst r.
  - intros e He. unfold Values.AppendArg. cbn [String.eqb Ascii.eqb Bool.eqb andb].
    destruct (Values.AppendColumns fmter0 q b) as [r q1] eqn:Hac. cbn in He. subst r.
    eexists. split; [reflexivity|].
    assert (Herr : err (Values.baseQuery_of (Values.updBase (Values.setErr e) q1)) = Some e).
    { unfold Values.AppendColumns in Hac.
      destruct (err (Values.baseQuery_of q)) as [e0|] eqn:Heq.
      - injection Hac as <- <-. unfold Values.setErr. cbn. by rewrite Heq.
      - assert (Hq1 : err (Values.baseQuery_of q1) = None).
        { destruct (model_ (Values.baseQuery_of q)) as [[tm|m|name']|].
          - by injection Hac as _ <-.
          - destruct (MapSlice.appendColumns m fmter0 b) as [r m1].
            injection Hac as _ <-. done.
          - by injection Hac as _ <-.
          - by injection Hac as _ <-. }
        unfold Values.setErr. cbn. by rewrite Hq1. }
    split; [exact Herr|].
    intros fmter1 b'. unfold Values.AppendQuery, Values.AppendColumns.
    by rewrite Herr.
Qed.

End ValuesAgain.

(** ** Scanning rows *)

Lemma scanLoop_own (rs : list (gmap string value)) :
  forall tail arr l n,
    Scanner.scanLoop ((Ok <$> rs) ++ tail) arr (Scanner.own l) n
    = Scanner.scanLoop tail arr (Scanner.own (l ++ rs)) (n + length rs).
Proof.
  induction rs as [|x rs IH]; intros tail arr l n; cbn [fmap list_fmap app length].
  - by rewrite app_nil_r, Nat.add_0_r.
  - cbn [Scanner.scanLoop Scanner.append]. rewrite IH, <- app_assoc. cbn [app].
    f_equal. lia.
Qed.

Lemma scanLoop_shared (rs : list (gmap string value)) :
  forall tail arr j n,
    (j <= length arr)%nat ->
    Scanner.scanLoop ((Ok <$> rs) ++ tail) arr (Scanner.shared j) n
    = if decide (j + length rs <= length arr)%nat
      then Scanner.scanLoop tail (take j arr ++ rs ++ drop (j + length rs) arr)
             (Scanner.shared (j + length rs)) (n + length rs)
      else Scanner.scanLoop tail (take j arr ++ take (length arr - j) rs)
             (Scanner.own (take j arr ++ rs)) (n + length rs).
Proof.
  induction rs as [|x rs IH]; intros tail arr j n Hj; cbn [fmap list_fmap app length].
  - rewrite decide_True by lia. rewrite !Nat.add_0_r. cbn [app]. by rewrite take_drop.
  - cbn [Scanner.scanLoop Scanner.append].
    destruct (j <? length arr)%nat eqn:Hlt.
    + apply Nat.ltb_lt in Hlt.
      rewrite IH by (rewrite length_insert; lia). rewrite length_insert.
      assert (Ht : take (S j) (<[j:=x]> arr) = take j arr ++ [x]).
      { rewrite (take_S_r _ _ x) by (by apply list_lookup_insert_eq).
        by rewrite take_insert_ge by lia. }
      rewrite Ht.
      destruct (decide (S j + length rs <= length arr)%nat) as [Hle|Hgt].
      * rewrite decide_True by lia.
        rewrite drop_insert_lt by lia.
        rewrite <- !app_assoc. cbn [app].
        replace (j + S (length rs))%nat with (S j + length rs)%nat by lia.
        replace (n + S (length rs))%nat with (S n + length rs)%nat by lia. done.
      * rewrite decide_False by lia.
        replace (length arr - j)%nat with (S (length arr - S j)) by lia.
        cbn [take]. rewrite <- !app_assoc. cbn [app].
        replace (n + S (length rs))%nat with (S n + length rs)%nat by lia. done.
    + apply Nat.ltb_ge in Hlt. rewrite decide_False by lia.
      rewrite scanLoop_own.
      replace (length arr - j)%nat with 0%nat by lia. cbn [take].
      rewrite app_nil_r, <- app_assoc. cbn [app].
      rewrite (take_ge arr j) by lia.
      replace (n + S (length rs))%nat with (S n + length rs)%nat by lia. done.
Qed.

(** X22: [ScanRows] replaces the contents of the caller's slice, and a
    failure leaves the slice partly overwritten.  When the column names
    cannot be read, the error is returned and nothing changes.  When every
    row scans, the slice holds exactly the scanned rows in order, whatever
    it held before, and their number is returned.  When the scan of a row
    fails after [k] rows, the error is returned (with the count 0) and the
    slice keeps its length, but its first [k] elements, as far as it has
    them, are already the new rows: the rows are written into the caller's
    backing array as they arrive. *)
Theorem ScanRows_overwrites (rows : Scanner.Rows) (m : Scanner.mapSliceModel) :
  (Scanner.len m <= length (Scanner.array m))%nat ->
  (forall e, Scanner.Columns rows = Err e -> Scanner.ScanRows rows m = (Err e, m))
  /\ (forall cs rs,
        Scanner.Columns rows = Ok cs -> Scanner.fetched rows = Ok <$> rs ->
        (Scanner.ScanRows rows m).1 = Ok (length rs)
        /\ Scanner.elements (Scanner.ScanRows rows m).2 = rs
        /\ Scanner.len (Scanner.ScanRows rows m).2 = length rs
        /\ Scanner.columns (Scanner.ScanRows rows m).2 = cs)
  /\ (forall cs rs e rest,
        Scanner.Columns rows = Ok cs ->
        Scanner.fetched rows = (Ok <$> rs) ++ Err e :: rest ->
        (Scanner.ScanRows rows m).1 = Err e
        /\ Scanner.len (Scanner.ScanRows rows m).2 = Scanner.len m
        /\ Scanner.elements (Scanner.ScanRows rows m).2
           = take (Scanner.len m) (rs ++ drop (length rs) (Scanner.elements m))
        /\ Scanner.columns (Scanner.ScanRows rows m).2 = cs).
Proof.
  intros Hlen.
  assert (Hs : (if (0 <? Scanner.len m)%nat then Scanner.shared 0
                else Scanner.shared (Scanner.len m)) = Scanner.shared 0).
  { destruct (0 <? Scanner.len m)%nat eqn:Hz; [done|].
    apply Nat.ltb_ge in Hz. f_equal. lia. }
  split; [|split].
  - intros e He. unfold Scanner.ScanRows. by rewrite He.
  - intros cs rs Hc Hf. unfold Scanner.ScanRows. rewrite Hc, Hf, Hs.
    rewrite <- (app_nil_r (Ok <$> rs)).
    rewrite scanLoop_shared by lia. cbn [Nat.add].
    destruct (decide (length rs <= length (Scanner.array m))%nat) as [Hle|Hgt];
      cbn [Scanner.scanLoop fst snd]; unfold Scanner.elements;
      cbn [Scanner.len Scanner.array Scanner.columns]; rewrite ?take_0; cbn [app].
    + split; [done|]. split; [|done]. apply take_app_length.
    + split; [done|]. split; [|done]. by apply take_ge.
  - intros cs rs e rest Hc Hf. unfold Scanner.ScanRows. rewrite Hc, Hf, Hs.
    rewrite scanLoop_shared by lia. cbn [Nat.add].
    destruct (decide (length rs <= length (Scanner.array m))%nat) as [Hle|Hgt];
      cbn [Scanner.scanLoop fst snd]; unfold Scanner.elements;
      cbn [Scanner.len Scanner.array Scanner.columns]; rewrite ?take_0; cbn [app].
    + split; [done|]. split; [done|]. split; [|done].
      destruct (decide (Scanner.len m <= length rs)%nat) as [Hl|Hl].
      * rewrite !take_app_le by lia. done.
      * rewrite !take_app_ge by lia. f_equal.
        rewrite !take_drop_commute, take_take. do 2 f_equal. lia.
    + split; [done|]. split; [done|]. split; [|done].
      rewrite Nat.sub_0_r, take_take.
      rewrite take_app_le by lia. f_equal. lia.
Qed.

Lemma ScanRows_overwrites_witness :
  (Scanner.len scannedInto <= length (Scanner.array scannedInto))%nat
  /\ Scanner.elements (Scanner.ScanRows failingRows scannedInto).2
     = take (Scanner.len scannedInto)
         ([ {[ "a" := VInt 7 ]} ] ++ drop 1 (Scanner.elements scannedInto)).
Proof.
  assert (Hl : (Scanner.len scannedInto <= length (Scanner.array scannedInto))%nat)
    by (cbn; lia).
  split; [exact Hl|].
  exact (proj1 (proj2 (proj2
    (proj2 (proj2 (ScanRows_overwrites failingRows scannedInto Hl))
       ["a"] [ {[ "a" := VInt 7 ]} ] (errExternal "sql: Scan error") []
       eq_refl eq_refl)))).
Defined.
